(** * Simulated-annealing TSP solver (Task1b.py): shallow embedding and
      verification of its specification.

    Python floats are IEEE-754 binary64 values and are modelled by Rocq's
    primitive floats; Python ints are modelled by [Z]; Python lists by
    [list]; exceptions by an explicit [result] type; the process-wide
    generator of the [random] module by an explicit generator state that
    is threaded through every call.  The generator itself and the two libm
    functions behind [math.exp] and [**] are interfaces ([RandomGen],
    [Libm]); a [TSPSimulatedAnnealingSolver] object is its city list, and
    the fields [solve] assigns are returned in a [SolveResult]. *)

From stdpp Require Import base option list gmap.
From Stdlib Require Import ZArith Floats Lia.

Local Open Scope Z_scope.

(* Decimal literals such as 0.2 denote the nearest double, as in Python. *)
Set Warnings "-inexact-float".

(** ** Exceptions *)

Inductive exn : Set :=
  | ValueError
  | IndexError
  | ZeroDivisionError
  | OverflowError
  | UnboundLocalError
  | InvalidInput
  | InvalidRange.

Inductive result (A : Type) : Type :=
  | Ok (a : A)
  | Raise (e : exn).
Arguments Ok {A} a.
Arguments Raise {A} e.

#[global] Instance result_ret : MRet result := fun _ a => Ok a.
#[global] Instance result_bind : MBind result := fun _ _ f m =>
  match m with
  | Ok a => f a
  | Raise e => Raise e
  end.

(** ** Python list primitives *)

Module PyList.

(** [PySlice_AdjustIndices] for a positive step: a negative bound counts
    from the end, and every bound is clamped into [0, len]. *)
Definition adjust_index (len i : Z) : Z :=
  if i <? 0 then (if i + len <? 0 then 0 else i + len)
  else if len <=? i then len else i.

(** [l[start:stop]]; [None] is an omitted bound.  Slicing never raises. *)
Definition py_slice {A} (l : list A) (start stop : option Z) : list A :=
  let len := Z.of_nat (length l) in
  let lo := match start with None => 0 | Some s => adjust_index len s end in
  let hi := match stop with None => len | Some s => adjust_index len s end in
  take (Z.to_nat (hi - lo)) (drop (Z.to_nat lo) l).

(** [l[i]]: a negative index counts from the end; out of range raises. *)
Definition py_getitem {A} (l : list A) (i : Z) : result A :=
  let len := Z.of_nat (length l) in
  let k := if i <? 0 then i + len else i in
  if (k <? 0) || (len <=? k) then Raise IndexError
  else match l !! Z.to_nat k with
       | Some x => Ok x
       | None => Raise IndexError
       end.

(** [range(n)] *)
Definition py_range (n : Z) : list Z := seqZ 0 n.

End PyList.
Import PyList.

(** ** Neighborhood generation *)

(** [tour[:segment_start] + tour[segment_start:segment_end+1][::-1]
     + tour[segment_end+1:]] *)
Definition generate_two_opt_neighbor
    (tour : list Z) (segment_start segment_end : Z) : list Z :=
  (py_slice tour None (Some segment_start)
   ++ reverse (py_slice tour (Some segment_start) (Some (segment_end + 1))))
  ++ py_slice tour (Some (segment_end + 1)) None.

(** The same function over a store of list objects: every slice, reversal
    and concatenation allocates a new list object, and the argument is only
    read. *)
Module Obj.

Definition loc := nat.
Abbreviation store := (gmap loc (list Z)).

Definition alloc (σ : store) (v : list Z) : loc * store :=
  let r := fresh (dom σ) in (r, <[r := v]> σ).

Definition new_slice (σ : store) (r : loc) (start stop : option Z)
    : option (loc * store) :=
  v ← σ !! r; Some (alloc σ (py_slice v start stop)).

Definition new_reversed (σ : store) (r : loc) : option (loc * store) :=
  v ← σ !! r; Some (alloc σ (reverse v)).

Definition new_concat (σ : store) (r1 r2 : loc) : option (loc * store) :=
  v1 ← σ !! r1; v2 ← σ !! r2; Some (alloc σ (v1 ++ v2)).

Definition generate_two_opt_neighbor
    (σ : store) (tour : loc) (segment_start segment_end : Z)
    : option (loc * store) :=
  '(a, σ1) ← new_slice σ tour None (Some segment_start);
  '(b, σ2) ← new_slice σ1 tour (Some segment_start) (Some (segment_end + 1));
  '(c, σ3) ← new_reversed σ2 b;
  '(d, σ4) ← new_concat σ3 a c;
  '(e, σ5) ← new_slice σ4 tour (Some (segment_end + 1)) None;
  new_concat σ5 d e.

End Obj.

(** The operation as the specification words it: the index precondition is
    checked and its violation signalled. *)
Definition two_opt_move_spec (tour : list Z) (i j : Z) : result (list Z) :=
  if (0 <=? i) && (i <? j) && (j <? Z.of_nat (length tour)) then
    Ok (take (Z.to_nat i) tour
        ++ reverse (take (Z.to_nat (j - i + 1)) (drop (Z.to_nat i) tour))
        ++ drop (Z.to_nat (j + 1)) tour)
  else Raise InvalidRange.

(** ** Numeric primitives of the Python runtime *)

Module PyNum.

(** [float(k)] for a Python int: round to nearest even, [OverflowError]
    when the int is too large for a double. *)
Definition float_of_int (k : Z) : result float :=
  let f := SF2Prim (binary_normalize prec emax k 0 false) in
  if is_infinity f then Raise OverflowError else Ok f.

(** [x / y] on floats: division by a zero of either sign raises. *)
Definition float_div (x y : float) : result float :=
  if (y =? 0)%float then Raise ZeroDivisionError else Ok (x / y)%float.

(** [math.sqrt]: a negative argument is a domain error. *)
Definition math_sqrt (x : float) : result float :=
  if (x <? 0)%float then Raise ValueError else Ok (sqrt x).

(** [max(0, x)]: the builtin keeps its first argument unless a later one
    is strictly greater.  The int [0] it then returns is represented by
    the float [+0.0], to which it compares equal. *)
Definition py_max0 (x : float) : float :=
  if (0 <? x)%float then x else 0%float.

(** [a % b] on ints: floored, the sign of the divisor. *)
Definition py_mod (a b : Z) : result Z :=
  if b =? 0 then Raise ZeroDivisionError else Ok (a mod b).

End PyNum.
Import PyNum.

(** The two functions of the C math library the program reaches through
    [math.exp] and the float power operator.  They are not part of the
    program and are taken as parameters; [float_pow] comes with the one
    case CPython decides itself, before calling the library. *)
Class Libm := {
  math_exp : float -> result float;
  float_pow : float -> float -> result float;
  float_pow_zero : forall x, float_pow x 0%float = Ok 1%float;
}.

(** The generator behind the [random] module, with the documented ranges of
    its draws.  [seed a] is the generator state [random.seed(a)] installs. *)
Class RandomGen := {
  rng : Type;
  seed : Z -> rng;
  random : rng -> float * rng;
  randbelow : Z -> rng -> Z * rng;
  shuffle : list Z -> rng -> list Z * rng;
  random_range : forall g,
    (0 <=? (random g).1)%float = true /\ ((random g).1 <? 1)%float = true;
  randbelow_range : forall n g, 0 < n -> 0 <= (randbelow n g).1 < n;
  shuffle_Permutation : forall l g, (shuffle l g).1 ≡ₚ l;
}.

(** ** City management *)

(** A city [[x, y]]. *)
Record Point := { px : float; py : float }.

Definition distance_between (city_a city_b : Point) : result float :=
  let dx := (px city_a - px city_b)%float in
  let dy := (py city_a - py city_b)%float in
  math_sqrt (dx * dx + dy * dy)%float.

(** The body of the [for position in range(tour_size)] loop, threaded over
    the remaining positions. *)
Fixpoint tour_length_loop (tour : list Z) (cities : list Point) (tour_size : Z)
    (positions : list Z) (total_distance : float) : result float :=
  match positions with
  | [] => Ok total_distance
  | position :: rest =>
      current_idx ← py_getitem tour position;
      next_pos ← py_mod (position + 1) tour_size;
      next_idx ← py_getitem tour next_pos;
      city_a ← py_getitem cities current_idx;
      city_b ← py_getitem cities next_idx;
      segment_distance ← distance_between city_a city_b;
      tour_length_loop tour cities tour_size rest
        (total_distance + segment_distance)%float
  end.

Definition evaluate_tour_length (tour : list Z) (cities : list Point)
    : result float :=
  let tour_size := Z.of_nat (length tour) in
  tour_length_loop tour cities tour_size (py_range tour_size) 0%float.

(** The cyclic sum as the specification words it: the distances of
    [points[tour[i]]] to [points[tour[(i+1) mod N]]], added up for
    [i = 0, ..., N-1]. *)
Definition spec_distance (a b : Point) : float :=
  sqrt ((px a - px b) * (px a - px b) + (py a - py b) * (py a - py b))%float.

Definition spec_summand (tour : list nat) (points : list Point)
    (acc : float) (i : nat) : float :=
  let d := {| px := 0; py := 0 |} in
  (acc + spec_distance
           (nth (nth i tour 0%nat) points d)
           (nth (nth ((i + 1) mod length tour)%nat tour 0%nat) points d)
  )%float.

Definition spec_tour_length (tour : list nat) (points : list Point) : float :=
  foldl (spec_summand tour points) 0%float (seq 0 (length tour)).

(** Every entry of the tour is an index into the city list. *)
Definition valid_tour (tour : list Z) (cities : list Point) : Prop :=
  Forall (fun t => 0 <= t < Z.of_nat (length cities)) tour.

(** A value that does not compare below zero: anything but a negative
    number or negative infinity. *)
Definition sf_not_negative (v : spec_float) : bool :=
  match v with
  | S754_infinity true | S754_finite true _ _ => false
  | _ => true
  end.

(** ** Cooling schedules *)

Inductive CoolingSchedule :=
  | ExponentialSchedule (initial rate : float)
  | LinearSchedule (initial decrement : float).

Section Solver.
Context {libm : Libm} {gen : RandomGen}.

Definition temperature_at_iteration (schedule : CoolingSchedule)
    (iteration : Z) : result float :=
  match schedule with
  | ExponentialSchedule initial rate =>
      k ← float_of_int iteration;
      p ← float_pow rate k;
      Ok (initial * p)%float
  | LinearSchedule initial decrement =>
      k ← float_of_int iteration;
      Ok (py_max0 (initial - decrement * k)%float)
  end.

(** *** Computations that use the module-level generator *)

Definition M (A : Type) : Type := rng -> result (A * rng).

Definition ret {A} (a : A) : M A := fun g => Ok (a, g).
Definition bind {A B} (m : M A) (f : A -> M B) : M B := fun g =>
  match m g with
  | Ok (a, g') => f a g'
  | Raise e => Raise e
  end.
Definition lift {A} (r : result A) : M A := fun g =>
  match r with
  | Ok a => Ok (a, g)
  | Raise e => Raise e
  end.
Definition raise {A} (e : exn) : M A := fun _ => Raise e.

Notation "x <- m ;; k" := (bind m (fun x => k))
  (at level 100, m at next level, right associativity).

(** [random.random()] *)
Definition py_random : M float := fun g => Ok (random g).

(** [random.randint(a, b)] is [randrange(a, b+1)], which raises on an
    empty range. *)
Definition py_randint (a b : Z) : M Z := fun g =>
  let width := b + 1 - a in
  if 0 <? width then
    let '(r, g') := randbelow width g in Ok (a + r, g')
  else Raise ValueError.

(** [random.shuffle(x)] *)
Definition py_shuffle (x : list Z) : M (list Z) := fun g => Ok (shuffle x g).

(** [random.seed(a)] *)
Definition py_seed (a : Z) : M unit := fun _ => Ok (tt, seed a).

(** *** Acceptance criterion *)

Definition metropolis_acceptance
    (current_cost candidate_cost temperature : float) : M bool :=
  if (candidate_cost <? current_cost)%float then ret true
  else
    let energy_increase := (candidate_cost - current_cost)%float in
    acceptance_prob <-
      (if (0 <? temperature)%float then
         lift (q ← float_div (- energy_increase) temperature; math_exp q)
       else ret 0%float) ;;
    r <- py_random ;;
    ret (r <? acceptance_prob)%float.

(** *** Main solver *)

Record SolverState := {
  current_tour : list Z;
  current_distance : float;
  best_tour : list Z;
  best_distance : float;
}.

(** How one pass through the loop body ends: at its end or at
    [continue] with the next state, or at [break]. *)
Inductive flow :=
  | Next (s : SolverState)
  | Break.

Definition loop_body (cities : list Point) (num_cities : Z)
    (cooling_schedule : CoolingSchedule) (min_temperature : float)
    (s : SolverState) (iteration : Z) : M flow :=
  temperature <- lift (temperature_at_iteration cooling_schedule iteration) ;;
  if (temperature <? min_temperature)%float then ret Break
  else
    idx1 <- py_randint 0 (num_cities - 1) ;;
    idx2 <- py_randint 0 (num_cities - 1) ;;
    let '(idx1, idx2) := if idx2 <? idx1 then (idx2, idx1) else (idx1, idx2) in
    if idx1 =? idx2 then ret (Next s)
    else
      let neighbor_tour :=
        generate_two_opt_neighbor (current_tour s) idx1 idx2 in
      neighbor_distance <- lift (evaluate_tour_length neighbor_tour cities) ;;
      accepted <- metropolis_acceptance (current_distance s)
                    neighbor_distance temperature ;;
      if accepted then
        if (neighbor_distance <? best_distance s)%float then
          ret (Next {| current_tour := neighbor_tour;
                       current_distance := neighbor_distance;
                       best_tour := neighbor_tour;
                       best_distance := neighbor_distance |})
        else
          ret (Next {| current_tour := neighbor_tour;
                       current_distance := neighbor_distance;
                       best_tour := best_tour s;
                       best_distance := best_distance s |})
      else ret (Next s).

(** The [for iteration in range(max_iterations)] loop over the remaining
    iterations; [last] is the loop variable, unbound before the first
    pass. *)
Fixpoint run_loop (cities : list Point) (num_cities : Z)
    (cooling_schedule : CoolingSchedule) (min_temperature : float)
    (iterations : list Z) (s : SolverState) (last : option Z)
    : M (SolverState * option Z) :=
  match iterations with
  | [] => ret (s, last)
  | iteration :: rest =>
      f <- loop_body cities num_cities cooling_schedule min_temperature
             s iteration ;;
      match f with
      | Break => ret (s, Some iteration)
      | Next s' =>
          run_loop cities num_cities cooling_schedule min_temperature
            rest s' (Some iteration)
      end
  end.

(** What a call of [solve] leaves: the returned pair, which is also stored
    in [best_route] and [best_cost], and [iterations_performed]. *)
Record SolveResult := {
  best_route : list Z;
  best_cost : float;
  iterations_performed : Z;
}.

(** The state the loop starts from. *)
Definition initial_state (cities : list Point) : M SolverState :=
  let num_cities := Z.of_nat (length cities) in
  current_tour <- py_shuffle (py_range num_cities) ;;
  current_distance <- lift (evaluate_tour_length current_tour cities) ;;
  ret {| current_tour := current_tour;
         current_distance := current_distance;
         best_tour := current_tour;
         best_distance := current_distance |}.

Definition solve (cities : list Point) (cooling_schedule : CoolingSchedule)
    (max_iterations : Z) (min_temperature : float) : M SolveResult :=
  let num_cities := Z.of_nat (length cities) in
  s0 <- initial_state cities ;;
  end_of_loop <- run_loop cities num_cities cooling_schedule min_temperature
                   (py_range max_iterations) s0 None ;;
  let '(s, last) := end_of_loop in
  match last with
  | None => raise UnboundLocalError
  | Some iteration =>
      ret {| best_route := best_tour s;
             best_cost := best_distance s;
             iterations_performed := iteration + 1 |}
  end.

End Solver.

(** The solver as the specification designs it: the same loop over the
    move that checks its cut points, [two_opt_move_spec]. *)
Section CheckedSolver.
Context {libm : Libm} {gen : RandomGen}.

Definition loop_body_checked (cities : list Point) (num_cities : Z)
    (cooling_schedule : CoolingSchedule) (min_temperature : float)
    (s : SolverState) (iteration : Z) : M flow :=
  bind (lift (temperature_at_iteration cooling_schedule iteration))
    (fun temperature =>
  if (temperature <? min_temperature)%float then ret Break
  else
    bind (py_randint 0 (num_cities - 1)) (fun idx1 =>
    bind (py_randint 0 (num_cities - 1)) (fun idx2 =>
    let '(idx1, idx2) := if idx2 <? idx1 then (idx2, idx1) else (idx1, idx2) in
    if idx1 =? idx2 then ret (Next s)
    else
      bind (lift (two_opt_move_spec (current_tour s) idx1 idx2))
        (fun neighbor_tour =>
      bind (lift (evaluate_tour_length neighbor_tour cities))
        (fun neighbor_distance =>
      bind (metropolis_acceptance (current_distance s)
              neighbor_distance temperature) (fun accepted =>
      if accepted then
        if (neighbor_distance <? best_distance s)%float then
          ret (Next {| current_tour := neighbor_tour;
                       current_distance := neighbor_distance;
                       best_tour := neighbor_tour;
                       best_distance := neighbor_distance |})
        else
          ret (Next {| current_tour := neighbor_tour;
                       current_distance := neighbor_distance;
                       best_tour := best_tour s;
                       best_distance := best_distance s |})
      else ret (Next s))))))).

Fixpoint run_loop_checked (cities : list Point) (num_cities : Z)
    (cooling_schedule : CoolingSchedule) (min_temperature : float)
    (iterations : list Z) (s : SolverState) (last : option Z)
    : M (SolverState * option Z) :=
  match iterations with
  | [] => ret (s, last)
  | iteration :: rest =>
      bind (loop_body_checked cities num_cities cooling_schedule
              min_temperature s iteration) (fun f =>
      match f with
      | Break => ret (s, Some iteration)
      | Next s' =>
          run_loop_checked cities num_cities cooling_schedule min_temperature
            rest s' (Some iteration)
      end)
  end.

Definition solve_checked (cities : list Point)
    (cooling_schedule : CoolingSchedule)
    (max_iterations : Z) (min_temperature : float) : M SolveResult :=
  let num_cities := Z.of_nat (length cities) in
  bind (initial_state cities) (fun s0 =>
  bind (run_loop_checked cities num_cities cooling_schedule min_temperature
          (py_range max_iterations) s0 None) (fun end_of_loop =>
  let '(s, last) := end_of_loop in
  match last with
  | None => raise UnboundLocalError
  | Some iteration =>
      ret {| best_route := best_tour s;
             best_cost := best_distance s;
             iterations_performed := iteration + 1 |}
  end)).

End CheckedSolver.

(** The best pair is carried over unchanged. *)
Definition best_kept (s s' : SolverState) : Prop :=
  best_tour s' = best_tour s /\ best_distance s' = best_distance s.

(** The best pair is replaced by the new current pair, whose cost is
    strictly below the best cost recorded before. *)
Definition best_replaced (s s' : SolverState) : Prop :=
  (current_distance s' <? best_distance s)%float = true
  /\ best_tour s' = current_tour s'
  /\ best_distance s' = current_distance s'.

(** The best cost of [s'] is the one of [s] or strictly below it. *)
Definition best_not_above (s s' : SolverState) : Prop :=
  best_distance s' = best_distance s
  \/ (best_distance s' <? best_distance s)%float = true.

(** ** A small executable generator and math library

    Stand-ins for the Mersenne Twister and for libm, precise enough to run
    the solver on examples: a linear congruential generator, a power by
    repeated multiplication and a coarse exponential. *)
Module Ref.

Definition lcg_step (g : Z) : Z := (1103515245 * g + 12345) mod 2147483648.

Definition unit_draw (g : Z) : float :=
  let q := (g / 65536) mod 4 in
  if q =? 0 then 0%float else if q =? 1 then 0.25%float
  else if q =? 2 then 0.5%float else 0.75%float.

Definition lcg_seed (a : Z) : Z := lcg_step (lcg_step (a mod 2147483648)).
Definition lcg_random (g : Z) : float * Z := (unit_draw g, lcg_step g).
Definition lcg_randbelow (n g : Z) : Z * Z := ((g / 65536) mod n, lcg_step g).
Definition lcg_shuffle (l : list Z) (g : Z) : list Z * Z :=
  (rotate (Z.to_nat (g / 65536)) l, lcg_step g).

Definition int_of_float (y : float) : Z :=
  match Prim2SF y with
  | S754_finite s m e =>
      let v := if 0 <=? e then Zpos m * 2 ^ e else Zpos m / 2 ^ (- e) in
      if s then - v else v
  | _ => 0
  end.

Definition ref_pow (x y : float) : result float :=
  if (y =? 0)%float then Ok 1%float
  else
    let r := Z.iter (int_of_float y) (fun acc => (acc * x)%float) 1%float in
    if is_infinity r && is_finite x then Raise OverflowError else Ok r.

Definition ref_exp (x : float) : result float :=
  if (x <? -745)%float then Ok 0%float
  else
    let r := Nat.iter 10 (fun b => (b * b)%float) (1 + x / 1024)%float in
    if is_infinity r then Raise OverflowError else Ok r.

End Ref.

(** ** Neighborhood generation: proofs *)

Section TwoOpt.
Implicit Types (tour : list Z) (i j : Z).

Lemma adjust_index_in_range len i :
  0 <= i <= len -> adjust_index len i = i.
Proof. unfold adjust_index. intros. repeat case_match; lia. Qed.

(** On valid cut points the slices are plain prefixes and suffixes. *)
Lemma generate_two_opt_neighbor_valid tour i j :
  0 <= i < j -> j < Z.of_nat (length tour) ->
  generate_two_opt_neighbor tour i j =
    take (Z.to_nat i) tour
    ++ reverse (take (Z.to_nat (j - i + 1)) (drop (Z.to_nat i) tour))
    ++ drop (Z.to_nat (j + 1)) tour.
Proof.
  intros Hij Hj. unfold generate_two_opt_neighbor, py_slice.
  rewrite !adjust_index_in_range by lia.
  rewrite <-app_assoc. f_equal; [|f_equal].
  - rewrite Z.sub_0_r. simpl. by rewrite drop_0.
  - do 2 f_equal. lia.
  - rewrite take_ge; [done|]. rewrite length_drop. lia.
Qed.

Lemma two_opt_length tour i j :
  0 <= i < j -> j < Z.of_nat (length tour) ->
  length (generate_two_opt_neighbor tour i j) = length tour.
Proof.
  intros Hij Hj. rewrite generate_two_opt_neighbor_valid by done.
  rewrite !length_app, length_reverse, !length_take, !length_drop. lia.
Qed.

Lemma two_opt_lookup_outside tour i j (p : nat) :
  0 <= i < j -> j < Z.of_nat (length tour) ->
  (Z.of_nat p < i \/ j < Z.of_nat p) ->
  generate_two_opt_neighbor tour i j !! p = tour !! p.
Proof.
  intros Hij Hj Hp. rewrite generate_two_opt_neighbor_valid by done.
  destruct Hp as [Hp|Hp].
  - rewrite lookup_app_l by (rewrite length_take; lia).
    apply lookup_take_lt. lia.
  - rewrite lookup_app_r by (rewrite length_take; lia).
    rewrite lookup_app_r
      by (rewrite length_reverse, !length_take, length_drop; lia).
    rewrite lookup_drop.
    rewrite length_reverse, !length_take, length_drop. f_equal. lia.
Qed.

Lemma two_opt_lookup_inside tour i j (p : nat) :
  0 <= i < j -> j < Z.of_nat (length tour) ->
  i <= Z.of_nat p <= j ->
  generate_two_opt_neighbor tour i j !! p = tour !! Z.to_nat (i + j - Z.of_nat p).
Proof.
  intros Hij Hj Hp. rewrite generate_two_opt_neighbor_valid by done.
  rewrite lookup_app_r by (rewrite length_take; lia).
  rewrite lookup_app_l
    by (rewrite length_reverse, !length_take, length_drop; lia).
  rewrite reverse_lookup by (rewrite !length_take, length_drop; lia).
  rewrite lookup_take_lt by (rewrite !length_take, length_drop; lia).
  rewrite lookup_drop. rewrite !length_take, length_drop. f_equal. lia.
Qed.

Lemma split3 tour (a b : nat) :
  tour = take a tour ++ take b (drop a tour) ++ drop (a + b) tour.
Proof. by rewrite <-drop_drop, !take_drop. Qed.

Lemma two_opt_Permutation tour i j :
  0 <= i < j -> j < Z.of_nat (length tour) ->
  generate_two_opt_neighbor tour i j ≡ₚ tour.
Proof.
  intros Hij Hj. rewrite generate_two_opt_neighbor_valid by done.
  rewrite reverse_Permutation.
  replace (Z.to_nat (j + 1)) with (Z.to_nat i + Z.to_nat (j - i + 1))%nat
    by lia.
  by rewrite <-split3.
Qed.

End TwoOpt.

(** ** Facts about binary64 comparison and arithmetic *)

Section FloatFacts.
Implicit Types (x y z : float).

Lemma Prim2SF_zero : Prim2SF 0%float = S754_zero false.
Proof. reflexivity. Qed.

Lemma sf_not_negative_ltb x :
  sf_not_negative (Prim2SF x) = true -> (x <? 0)%float = false.
Proof.
  rewrite ltb_spec, Prim2SF_zero. unfold SFltb.
  destruct (Prim2SF x) as [[]|[]| |[] ? ?]; simpl; congruence.
Qed.

Lemma leb_zero_not_negative x :
  (0 <=? x)%float = true -> sf_not_negative (Prim2SF x) = true.
Proof.
  rewrite leb_spec, Prim2SF_zero. unfold SFleb.
  destruct (Prim2SF x) as [[]|[]| |[] ? ?]; simpl; congruence.
Qed.

Lemma leb_zero_not_ltb x : (0 <=? x)%float = true -> (x <? 0)%float = false.
Proof. intros. by apply sf_not_negative_ltb, leb_zero_not_negative. Qed.

Lemma ltb_zero_neq x : (0 <? x)%float = true -> (x =? 0)%float = false.
Proof.
  rewrite ltb_spec, eqb_spec, Prim2SF_zero. unfold SFltb, SFeqb.
  destruct (Prim2SF x) as [[]|[]| |[] ? ?]; simpl; congruence.
Qed.


Lemma SFcompare_Lt_trans (a b c : spec_float) :
  SFcompare a b = Some Lt -> SFcompare b c = Some Lt ->
  SFcompare a c = Some Lt.
Proof.
  destruct a as [[]|[]| |[] ma ea], b as [[]|[]| |[] mb eb],
           c as [[]|[]| |[] mc ec]; simpl; try congruence.
  all: intros Hab Hbc; f_equal.
  all: change (PosDef.Pos.compare_cont Eq) with Pos.compare in *.
  all: destruct (Z.compare_spec ea eb), (Z.compare_spec eb ec),
                (Z.compare_spec ea ec); try lia; try done.
  all: destruct (Pos.compare_spec ma mb), (Pos.compare_spec mb mc),
                (Pos.compare_spec ma mc); simpl in *; try lia; try done.
Qed.

Lemma ltb_trans x y z :
  (x <? y)%float = true -> (y <? z)%float = true -> (x <? z)%float = true.
Proof.
  rewrite !ltb_spec. unfold SFltb. intros Hxy Hyz.
  rewrite (SFcompare_Lt_trans (Prim2SF x) (Prim2SF y) (Prim2SF z)); [done| |].
  - by destruct (SFcompare (Prim2SF x) (Prim2SF y)) as [[]|].
  - by destruct (SFcompare (Prim2SF y) (Prim2SF z)) as [[]|].
Qed.

End FloatFacts.

Section FloatArith.
Implicit Types (x y : float).

Lemma binary_round_aux_not_negative mx ex lx :
  sf_not_negative (binary_round_aux prec emax false mx ex lx) = true.
Proof.
  unfold binary_round_aux.
  destruct (shr_fexp _ _ mx ex lx) as [mrs' e'].
  destruct (shr_fexp _ _ _ e' loc_Exact) as [mrs'' e''].
  destruct (shr_m mrs''); [done| |done]. by case_match.
Qed.

Lemma binary_round_not_negative mx ex :
  sf_not_negative (binary_round prec emax false mx ex) = true.
Proof.
  unfold binary_round. destruct (shl_align _ _ _) as [mz ez].
  apply binary_round_aux_not_negative.
Qed.

Lemma SFmul_self_not_negative (v : spec_float) :
  sf_not_negative (SF64mul v v) = true.
Proof.
  destruct v as [[]|[]| |[] m e]; simpl; try done;
    apply binary_round_aux_not_negative.
Qed.

Lemma SFadd_not_negative (a b : spec_float) :
  sf_not_negative a = true -> sf_not_negative b = true ->
  sf_not_negative (SF64add a b) = true.
Proof.
  destruct a as [[]|[]| |[] ma ea], b as [[]|[]| |[] mb eb];
    simpl; try done.
  intros _ _. apply binary_round_not_negative.
Qed.

(** A sum of two squares never compares below zero. *)
Lemma sum_of_squares_not_negative x y :
  (x * x + y * y <? 0)%float = false.
Proof.
  apply sf_not_negative_ltb. rewrite add_spec, !mul_spec.
  apply SFadd_not_negative; apply SFmul_self_not_negative.
Qed.

Lemma is_finite_sub_self x : is_finite x = true -> (x - x)%float = 0%float.
Proof.
  unfold is_finite, is_nan, is_infinity.
  rewrite !eqb_spec, abs_spec. intros Hfin.
  apply Prim2SF_inj. rewrite sub_spec, Prim2SF_zero.
  destruct (Prim2SF x) as [[]|[]| |[] m e]; simpl in *; try done.
  all: by rewrite Z.sub_diag.
Qed.

End FloatArith.

(** ** Distance model: proofs *)

Section Distance.

(** [math.sqrt] is only ever given a sum of squares, so the domain error
    cannot arise. *)
Lemma distance_between_Ok (a b : Point) :
  distance_between a b = Ok (spec_distance a b).
Proof.
  unfold distance_between, math_sqrt, spec_distance.
  by rewrite sum_of_squares_not_negative.
Qed.

Lemma distance_between_self (a : Point) :
  is_finite (px a) = true -> is_finite (py a) = true ->
  distance_between a a = Ok 0%float.
Proof.
  intros Hx Hy. rewrite distance_between_Ok. unfold spec_distance.
  by rewrite !is_finite_sub_self.
Qed.

End Distance.

Section TourLength.
Implicit Types (tour : list Z) (cities : list Point).

Lemma py_getitem_lookup {A} (l : list A) (i : nat) (x : A) :
  l !! i = Some x -> py_getitem l (Z.of_nat i) = Ok x.
Proof.
  intros Hx. pose proof (lookup_lt_Some _ _ _ Hx) as Hlt.
  unfold py_getitem.
  destruct (Z.of_nat i <? 0) eqn:E1; [lia|].
  destruct (Z.of_nat i <? 0) eqn:E2; [lia|].
  destruct (Z.of_nat (length l) <=? Z.of_nat i) eqn:E3; [lia|].
  simpl. by rewrite Nat2Z.id, Hx.
Qed.

Lemma valid_tour_lookup tour cities (i : nat) :
  valid_tour tour cities -> (i < length tour)%nat ->
  exists t, tour !! i = Some t
    /\ cities !! Z.to_nat t
       = Some (nth (nth i (Z.to_nat <$> tour) 0%nat) cities
                   {| px := 0; py := 0 |})
    /\ 0 <= t.
Proof.
  intros Hv Hi. destruct (lookup_lt_is_Some_2 tour i Hi) as [t Ht].
  exists t. split; [done|].
  pose proof (proj1 (Forall_lookup _ _) Hv i t Ht) as Hr. simpl in Hr.
  split; [|lia].
  rewrite (nth_lookup_Some (Z.to_nat <$> tour) i 0%nat (Z.to_nat t))
    by (by rewrite list_lookup_fmap, Ht).
  destruct (lookup_lt_is_Some_2 cities (Z.to_nat t)) as [c Hc]; [lia|].
  by rewrite (nth_lookup_Some _ _ _ _ Hc).
Qed.

Lemma tour_length_loop_spec tour cities (ps : list nat) (total : float) :
  valid_tour tour cities ->
  Forall (fun i => (i < length tour)%nat) ps ->
  tour_length_loop tour cities (Z.of_nat (length tour))
    ((fun i : nat => Z.of_nat i + 0) <$> ps) total
  = Ok (foldl (spec_summand (Z.to_nat <$> tour) cities) total ps).
Proof.
  intros Hv. revert total.
  induction ps as [|i ps IH]; intros total Hps; [done|].
  apply Forall_cons in Hps as [Hi Hps]. simpl.
  destruct (valid_tour_lookup tour cities i Hv Hi) as (t & Ht & Hc & Ht0).
  assert (Hn : ((i + 1) mod length tour < length tour)%nat)
    by (apply Nat.mod_upper_bound; lia).
  destruct (valid_tour_lookup tour cities _ Hv Hn) as (t' & Ht' & Hc' & Ht0').
  rewrite Z.add_0_r, (py_getitem_lookup _ _ _ Ht). simpl.
  unfold py_mod. destruct (Z.of_nat (length tour) =? 0) eqn:E; [lia|]. simpl.
  replace ((Z.of_nat i + 1) mod Z.of_nat (length tour))
    with (Z.of_nat ((i + 1) mod length tour))
    by (rewrite Nat2Z.inj_mod; f_equal; lia).
  rewrite (py_getitem_lookup _ _ _ Ht'). simpl.
  rewrite <-(Z2Nat.id t) at 1 by done.
  rewrite (py_getitem_lookup _ _ _ Hc). simpl.
  rewrite <-(Z2Nat.id t') at 1 by done.
  rewrite (py_getitem_lookup _ _ _ Hc'). simpl.
  rewrite distance_between_Ok. simpl.
  rewrite IH by done. do 2 f_equal.
  unfold spec_summand. by rewrite length_fmap.
Qed.

Lemma spec_tour_length_fold (tour' : list nat) cities :
  spec_tour_length tour' cities
  = foldl (spec_summand tour' cities) 0%float (seq 0 (length tour')).
Proof. reflexivity. Qed.

Lemma evaluate_tour_length_spec tour cities :
  valid_tour tour cities ->
  evaluate_tour_length tour cities
  = Ok (spec_tour_length (Z.to_nat <$> tour) cities).
Proof.
  intros Hv. unfold evaluate_tour_length, py_range, seqZ.
  rewrite Nat2Z.id, tour_length_loop_spec; [|done|].
  - by rewrite spec_tour_length_fold, length_fmap.
  - apply Forall_seq. lia.
Qed.

Lemma evaluate_tour_length_single (t : Z) (c : Point) cities :
  py_getitem cities t = Ok c ->
  is_finite (px c) = true -> is_finite (py c) = true ->
  evaluate_tour_length [t] cities = Ok 0%float.
Proof.
  intros Hc Hx Hy. unfold evaluate_tour_length. simpl.
  change (py_range 1) with [0]. simpl.
  change (py_getitem [t] 0) with (Ok t). simpl.
  rewrite Hc. simpl. by rewrite distance_between_self.
Qed.

End TourLength.

(** ** Acceptance rule and schedules: proofs *)

Section Acceptance.
Context {libm : Libm} {gen : RandomGen}.
Implicit Types (g : rng).

Lemma metropolis_improvement (c c' T : float) g :
  (c' <? c)%float = true ->
  metropolis_acceptance c c' T g = Ok (true, g).
Proof. unfold metropolis_acceptance. by intros ->. Qed.

(** With a positive temperature the division cannot raise, and the answer
    is the comparison of the draw with whatever [math.exp] returns. *)
Lemma metropolis_warm (c c' T : float) g :
  (c' <? c)%float = false -> (0 <? T)%float = true ->
  metropolis_acceptance c c' T g =
    match math_exp (- (c' - c) / T)%float with
    | Ok p => Ok (((random g).1 <? p)%float, (random g).2)
    | Raise e => Raise e
    end.
Proof.
  intros Hc HT. unfold metropolis_acceptance, bind, lift, float_div.
  rewrite Hc, HT, (ltb_zero_neq _ HT). simpl.
  destruct (math_exp _); [|done].
  unfold py_random, ret. by destruct (random g).
Qed.

Lemma metropolis_cold (c c' T : float) g :
  (c' <? c)%float = false -> (0 <? T)%float = false ->
  metropolis_acceptance c c' T g = Ok (false, (random g).2).
Proof.
  intros Hc HT. unfold metropolis_acceptance, bind, ret, py_random.
  rewrite Hc, HT.
  destruct (random_range g) as [Hr _].
  destruct (random g) as [r g']. simpl in *.
  by rewrite (leb_zero_not_ltb _ Hr).
Qed.

End Acceptance.

Section Schedules.
Context {libm : Libm}.




End Schedules.

(** ** Solver loop: proofs *)

Section SolverFacts.
Context {libm : Libm} {gen : RandomGen}.
Implicit Types (g : rng) (s : SolverState) (cities : list Point).

Lemma best_not_above_refl s : best_not_above s s.
Proof. by left. Qed.

Lemma best_not_above_trans s1 s2 s3 :
  best_not_above s1 s2 -> best_not_above s2 s3 -> best_not_above s1 s3.
Proof.
  unfold best_not_above. intros [E1|L1] [E2|L2].
  - left. congruence.
  - right. congruence.
  - right. congruence.
  - right. eauto using ltb_trans.
Qed.

Lemma best_step_not_above s s' :
  best_kept s s' \/ best_replaced s s' -> best_not_above s s'.
Proof.
  intros [[_ E]|(L & _ & E)]; [by left|]. right. by rewrite E.
Qed.

Lemma py_randint_range a b g :
  a <= b ->
  exists r g', py_randint a b g = Ok (r, g') /\ a <= r <= b.
Proof.
  intros Hab. unfold py_randint.
  destruct (0 <? b + 1 - a) eqn:E; [|lia].
  pose proof (randbelow_range (b + 1 - a) g ltac:(lia)) as Hr.
  destruct (randbelow _ g) as [r g']. simpl in Hr.
  exists (a + r), g'. split; [done|lia].
Qed.

Lemma py_randint_Ok a b g r g' :
  py_randint a b g = Ok (r, g') -> a <= r <= b.
Proof.
  unfold py_randint. destruct (0 <? b + 1 - a) eqn:E; [|done].
  pose proof (randbelow_range (b + 1 - a) g ltac:(lia)) as Hr.
  destruct (randbelow _ g) as [r0 g0]. simpl in Hr.
  intros [= <- <-]. lia.
Qed.

Lemma py_randint_empty a b g : b < a -> py_randint a b g = Raise ValueError.
Proof.
  intros Hab. unfold py_randint. by destruct (0 <? b + 1 - a) eqn:E; [lia|].
Qed.

(** The cut points the loop body hands to the 2-opt move. *)
Lemma cut_points_valid (num_cities : Z) g a g1 b g2 :
  py_randint 0 (num_cities - 1) g = Ok (a, g1) ->
  py_randint 0 (num_cities - 1) g1 = Ok (b, g2) ->
  let '(idx1, idx2) := if b <? a then (b, a) else (a, b) in
  (idx1 =? idx2) = false -> 0 <= idx1 < idx2 /\ idx2 < num_cities.
Proof.
  intros Ha%py_randint_Ok Hb%py_randint_Ok.
  destruct (b <? a) eqn:E; lia.
Qed.

Lemma loop_body_step cities n schedule min_temperature s k g f g' :
  loop_body cities n schedule min_temperature s k g = Ok (f, g') ->
  f = Break \/ exists s', f = Next s' /\ (best_kept s s' \/ best_replaced s s').
Proof.
  unfold loop_body, bind, lift, ret.
  destruct (temperature_at_iteration schedule k) as [t|]; [|done].
  destruct (t <? min_temperature)%float; [intros [= <- <-]; by left|].
  destruct (py_randint 0 (n - 1) g) as [[a g1]|]; [|done].
  destruct (py_randint 0 (n - 1) g1) as [[b g2]|]; [|done].
  destruct (if b <? a then (b, a) else (a, b)) as [idx1 idx2].
  destruct (idx1 =? idx2).
  { intros [= <- <-]. right. exists s. split; [done|]. by left. }
  destruct (evaluate_tour_length _ cities) as [d|]; [|done].
  destruct (metropolis_acceptance _ d t g2) as [[[] g3]|]; [| |done].
  - destruct (d <? best_distance s)%float eqn:Hd.
    + intros [= <- <-]. right. eexists. split; [done|]. by right.
    + intros [= <- <-]. right. eexists. split; [done|]. by left.
  - intros [= <- <-]. right. exists s. split; [done|]. by left.
Qed.

Lemma run_loop_not_above cities n schedule min_temperature its :
  forall s last g s' last' g',
  run_loop cities n schedule min_temperature its s last g
    = Ok ((s', last'), g') ->
  best_not_above s s'.
Proof.
  induction its as [|k its IH]; intros s last g s' last' g'; simpl.
  - unfold ret. intros [= <- _ _]. apply best_not_above_refl.
  - unfold bind at 1.
    destruct (loop_body _ _ _ _ s k g) as [[f g1]|] eqn:Hbody; [|done].
    apply loop_body_step in Hbody as [->|(s1 & -> & Hstep)].
    + unfold ret. intros [= <- _ _]. apply best_not_above_refl.
    + intros Hrest%IH.
      eauto using best_not_above_trans, best_step_not_above.
Qed.

(** A run over [its1 ++ its2] passes through the end of the run over
    [its1]; it stops there if that run ended at [break]. *)
Lemma run_loop_app cities n schedule min_temperature its1 its2 :
  forall s last g r,
  run_loop cities n schedule min_temperature (its1 ++ its2) s last g = Ok r ->
  exists s1 l1 g1,
    run_loop cities n schedule min_temperature its1 s last g
      = Ok ((s1, l1), g1)
    /\ (r = ((s1, l1), g1)
        \/ run_loop cities n schedule min_temperature its2 s1 l1 g1 = Ok r).
Proof.
  induction its1 as [|k its1 IH]; intros s last g r; simpl.
  - intros Hr. exists s, last, g. split; [done|]. by right.
  - unfold bind.
    destruct (loop_body _ _ _ _ s k g) as [[[s1|] g1]|]; [| |done].
    + apply IH.
    + unfold ret. intros [= <-]. eexists _, _, _. split; [done|]. by left.
Qed.

(** The loop variable after the loop: still unchanged, or one of the
    iterations. *)
Lemma run_loop_last cities n schedule min_temperature its :
  forall s last g s' last' g',
  run_loop cities n schedule min_temperature its s last g
    = Ok ((s', last'), g') ->
  (its = [] /\ last' = last) \/ exists k, k ∈ its /\ last' = Some k.
Proof.
  induction its as [|k its IH]; intros s last g s' last' g'; simpl.
  - unfold ret. intros [= _ <- _]. by left.
  - unfold bind at 1.
    destruct (loop_body _ _ _ _ s k g) as [[[s1|] g1]|]; [| |done].
    + intros [[-> ->]|(k' & Hk' & ->)]%IH; right.
      * exists k. split; [apply list_elem_of_here|done].
      * exists k'. split; [by apply list_elem_of_further|done].
    + unfold ret. intros [= _ <- _]. right.
      exists k. split; [apply list_elem_of_here|done].
Qed.

End SolverFacts.

(** ** Whole runs: proofs *)

Section Runs.
Context {libm : Libm} {gen : RandomGen}.
Implicit Types (g : rng) (s : SolverState) (cities : list Point).

(** A call of [solve] that returns went through the initial state and
    the loop, and reports the loop variable plus one. *)
Lemma solve_Ok_inv cities schedule max_iterations min_temperature g r g' :
  solve cities schedule max_iterations min_temperature g = Ok (r, g') ->
  exists s0 g0 s k,
    initial_state cities g = Ok (s0, g0)
    /\ run_loop cities (Z.of_nat (length cities)) schedule min_temperature
         (py_range max_iterations) s0 None g0 = Ok ((s, Some k), g')
    /\ r = {| best_route := best_tour s; best_cost := best_distance s;
              iterations_performed := k + 1 |}
    /\ 0 <= k < max_iterations.
Proof.
  unfold solve, bind.
  destruct (initial_state cities g) as [[s0 g0]|]; [|done].
  destruct (run_loop _ _ _ _ _ s0 None g0) as [[[s last] g1]|] eqn:Hloop;
    [|done].
  destruct last as [k|]; [|done].
  unfold ret. intros [= <- <-]. exists s0, g0, s, k.
  repeat split; try done.
  all: apply run_loop_last in Hloop as [[_ [=]]|(k' & Hk' & [= ->])].
  all: apply elem_of_seqZ in Hk'; lia.
Qed.

Lemma initial_state_best cities g s0 g0 :
  initial_state cities g = Ok (s0, g0) ->
  best_tour s0 = current_tour s0 /\ best_distance s0 = current_distance s0
  /\ current_tour s0 ≡ₚ py_range (Z.of_nat (length cities)).
Proof.
  unfold initial_state, bind, py_shuffle, lift, ret.
  pose proof (shuffle_Permutation (py_range (Z.of_nat (length cities))) g).
  destruct (shuffle _ g) as [t g1].
  destruct (evaluate_tour_length t cities); [|done].
  by intros [= <- <-].
Qed.

(** *** One city *)

Lemma initial_state_single (c : Point) g :
  is_finite (px c) = true -> is_finite (py c) = true ->
  exists g0,
    initial_state [c] g
    = Ok ({| current_tour := [0]; current_distance := 0%float;
             best_tour := [0]; best_distance := 0%float |}, g0).
Proof.
  intros Hx Hy. unfold initial_state, bind, py_shuffle, lift, ret.
  pose proof (shuffle_Permutation (py_range (Z.of_nat (length [c]))) g) as Hp.
  destruct (shuffle _ g) as [t g1]. simpl in Hp.
  apply Permutation_singleton_r in Hp as ->.
  rewrite (evaluate_tour_length_single 0 c) by done.
  by exists g1.
Qed.

Lemma loop_body_single (c : Point) schedule min_temperature s k g t :
  temperature_at_iteration schedule k = Ok t ->
  exists g',
    loop_body [c] 1 schedule min_temperature s k g
    = Ok (if (t <? min_temperature)%float then Break else Next s, g').
Proof.
  intros Ht. unfold loop_body, bind, lift, ret. rewrite Ht.
  destruct (t <? min_temperature)%float; [by exists g|].
  change (1 - 1) with 0.
  destruct (py_randint_range 0 0 g) as (a & g1 & -> & Ha); [done|].
  destruct (py_randint_range 0 0 g1) as (b & g2 & -> & Hb); [done|].
  assert (a = 0) as -> by lia. assert (b = 0) as -> by lia.
  by exists g2.
Qed.

Lemma run_loop_single (c : Point) schedule min_temperature its :
  forall s last g,
  Forall (fun k => exists t, temperature_at_iteration schedule k = Ok t) its ->
  exists last' g',
    run_loop [c] 1 schedule min_temperature its s last g
    = Ok ((s, last'), g').
Proof.
  induction its as [|k its IH]; intros s last g Hdef; simpl.
  - by exists last, g.
  - apply Forall_cons in Hdef as [[t Ht] Hdef]. unfold bind at 1.
    destruct (loop_body_single c schedule min_temperature s k g t Ht)
      as [g1 ->].
    destruct (t <? min_temperature)%float.
    + by exists (Some k), g1.
    + by apply IH.
Qed.

Lemma solve_single (c : Point) schedule max_iterations min_temperature g :
  is_finite (px c) = true -> is_finite (py c) = true ->
  1 <= max_iterations ->
  (forall k, 0 <= k < max_iterations ->
     exists t, temperature_at_iteration schedule k = Ok t) ->
  exists n g',
    solve [c] schedule max_iterations min_temperature g
    = Ok ({| best_route := [0]; best_cost := 0%float;
             iterations_performed := n |}, g')
    /\ 1 <= n <= max_iterations.
Proof.
  intros Hx Hy Hmax Hdef. unfold solve, bind.
  destruct (initial_state_single c g Hx Hy) as [g0 ->].
  change (Z.of_nat (length [c])) with 1.
  destruct (run_loop_single c schedule min_temperature
              (py_range max_iterations) (Build_SolverState [0] 0 [0] 0) None g0)
    as (last & g1 & Hloop).
  { apply Forall_seqZ. intros k Hk. apply Hdef. lia. }
  rewrite Hloop.
  apply run_loop_last in Hloop as [[Hnil _]|(k & Hk & ->)].
  - unfold py_range in Hnil. rewrite seqZ_cons in Hnil by lia. done.
  - apply elem_of_seqZ in Hk. exists (k + 1), g1. split; [done|lia].
Qed.

(** *** No city *)

Lemma initial_state_empty g :
  exists g0,
    initial_state [] g
    = Ok ({| current_tour := []; current_distance := 0%float;
             best_tour := []; best_distance := 0%float |}, g0).
Proof.
  unfold initial_state, bind, py_shuffle, lift, ret.
  pose proof (shuffle_Permutation (py_range 0) g) as Hp.
  destruct (shuffle _ g) as [t g1]. simpl in Hp.
  apply Permutation_nil_r in Hp as ->. by exists g1.
Qed.

Lemma solve_empty_raises schedule max_iterations min_temperature g t :
  1 <= max_iterations ->
  temperature_at_iteration schedule 0 = Ok t ->
  (t <? min_temperature)%float = false ->
  solve [] schedule max_iterations min_temperature g = Raise ValueError.
Proof.
  intros Hmax Ht Hwarm. unfold solve, bind.
  destruct (initial_state_empty g) as [g0 ->].
  unfold py_range. rewrite seqZ_cons by lia. simpl.
  unfold bind at 1. unfold loop_body, bind, lift.
  rewrite Ht, Hwarm. by rewrite py_randint_empty.
Qed.

Lemma solve_empty_cold schedule max_iterations min_temperature g t :
  1 <= max_iterations ->
  temperature_at_iteration schedule 0 = Ok t ->
  (t <? min_temperature)%float = true ->
  exists g',
    solve [] schedule max_iterations min_temperature g
    = Ok ({| best_route := []; best_cost := 0%float;
             iterations_performed := 1 |}, g').
Proof.
  intros Hmax Ht Hcold. unfold solve, bind.
  destruct (initial_state_empty g) as [g0 ->].
  unfold py_range. rewrite seqZ_cons by lia. simpl.
  unfold bind at 1. unfold loop_body, bind, lift.
  rewrite Ht, Hcold. by exists g0.
Qed.

End Runs.

(** ** The 2-opt move over the object store: proofs *)

Section ObjFacts.
Implicit Types (σ : gmap Obj.loc (list Z)) (r : Obj.loc).

Lemma alloc_fresh σ v :
  σ !! (Obj.alloc σ v).1 = None
  /\ (Obj.alloc σ v).2 !! (Obj.alloc σ v).1 = Some v
  /\ σ ⊆ (Obj.alloc σ v).2.
Proof.
  unfold Obj.alloc. simpl.
  assert (σ !! fresh (dom σ) = None) as Hfresh
    by apply not_elem_of_dom, is_fresh.
  split; [done|]. split; [apply lookup_insert_eq|].
  by apply insert_subseteq.
Qed.

Lemma new_slice_spec σ r v start stop :
  σ !! r = Some v ->
  exists a σ1, Obj.new_slice σ r start stop = Some (a, σ1)
    /\ σ !! a = None /\ σ1 !! a = Some (py_slice v start stop) /\ σ ⊆ σ1.
Proof.
  intros Hr. unfold Obj.new_slice. rewrite Hr. simpl.
  destruct (alloc_fresh σ (py_slice v start stop)) as (? & ? & ?).
  destruct (Obj.alloc σ _) as [a σ1]. by exists a, σ1.
Qed.

Lemma new_reversed_spec σ r v :
  σ !! r = Some v ->
  exists a σ1, Obj.new_reversed σ r = Some (a, σ1)
    /\ σ !! a = None /\ σ1 !! a = Some (reverse v) /\ σ ⊆ σ1.
Proof.
  intros Hr. unfold Obj.new_reversed. rewrite Hr. simpl.
  destruct (alloc_fresh σ (reverse v)) as (? & ? & ?).
  destruct (Obj.alloc σ _) as [a σ1]. by exists a, σ1.
Qed.

Lemma new_concat_spec σ r1 r2 v1 v2 :
  σ !! r1 = Some v1 -> σ !! r2 = Some v2 ->
  exists a σ1, Obj.new_concat σ r1 r2 = Some (a, σ1)
    /\ σ !! a = None /\ σ1 !! a = Some (v1 ++ v2) /\ σ ⊆ σ1.
Proof.
  intros Hr1 Hr2. unfold Obj.new_concat. rewrite Hr1. simpl. rewrite Hr2. simpl.
  destruct (alloc_fresh σ (v1 ++ v2)) as (? & ? & ?).
  destruct (Obj.alloc σ _) as [a σ1]. by exists a, σ1.
Qed.

(** The call returns a new object holding the value of the pure
    function, and leaves every object that existed before as it was. *)
Lemma generate_two_opt_neighbor_obj σ (tour : Obj.loc) (t : list Z) (i j : Z) :
  σ !! tour = Some t ->
  exists r σ',
    Obj.generate_two_opt_neighbor σ tour i j = Some (r, σ')
    /\ σ' !! r = Some (generate_two_opt_neighbor t i j)
    /\ σ !! r = None
    /\ σ ⊆ σ'.
Proof.
  intros Ht. unfold Obj.generate_two_opt_neighbor.
  destruct (new_slice_spec σ tour t None (Some i) Ht)
    as (a & σ1 & -> & _ & Ha & S1). simpl.
  pose proof (lookup_weaken _ _ _ _ Ht S1) as Ht1.
  destruct (new_slice_spec σ1 tour t (Some i) (Some (j + 1)) Ht1)
    as (b & σ2 & -> & _ & Hb & S2). simpl.
  destruct (new_reversed_spec σ2 b _ Hb) as (c & σ3 & -> & _ & Hc & S3).
  simpl.
  pose proof (lookup_weaken _ _ _ _ (lookup_weaken _ _ _ _ Ha S2) S3) as Ha3.
  destruct (new_concat_spec σ3 a c _ _ Ha3 Hc) as (d & σ4 & -> & _ & Hd & S4).
  simpl.
  assert (σ ⊆ σ4) as S04 by (do 3 (etrans; [eassumption|]); done).
  pose proof (lookup_weaken _ _ _ _ Ht S04) as Ht4.
  destruct (new_slice_spec σ4 tour t (Some (j + 1)) None Ht4)
    as (e & σ5 & -> & _ & He & S5). simpl.
  pose proof (lookup_weaken _ _ _ _ Hd S5) as Hd5.
  destruct (new_concat_spec σ5 d e _ _ Hd5 He)
    as (r & σ6 & -> & Hfresh & Hr & S6).
  assert (σ ⊆ σ5) as S05 by (etrans; eassumption).
  exists r, σ6. split; [done|]. split; [done|]. split.
  - by eapply lookup_weaken_None.
  - by etrans.
Qed.

End ObjFacts.

(** ** The stand-ins satisfy the interfaces *)

Section RefLaws.

Lemma lcg_random_range (g : Z) :
  (0 <=? (Ref.lcg_random g).1)%float = true
  /\ ((Ref.lcg_random g).1 <? 1)%float = true.
Proof. unfold Ref.lcg_random, Ref.unit_draw. simpl. by repeat case_match. Qed.

Lemma lcg_randbelow_range (n g : Z) :
  0 < n -> 0 <= (Ref.lcg_randbelow n g).1 < n.
Proof. intros Hn. simpl. by apply Z.mod_pos_bound. Qed.

Lemma lcg_shuffle_Permutation (l : list Z) (g : Z) :
  (Ref.lcg_shuffle l g).1 ≡ₚ l.
Proof.
  simpl. unfold rotate. rewrite Permutation_app_comm. by rewrite take_drop.
Qed.

Lemma ref_pow_zero (x : float) : Ref.ref_pow x 0%float = Ok 1%float.
Proof. reflexivity. Qed.

End RefLaws.

Definition ref_libm : Libm :=
  {| math_exp := Ref.ref_exp;
     float_pow := Ref.ref_pow;
     float_pow_zero := ref_pow_zero |}.

Definition lcg : RandomGen :=
  {| rng := Z;
     seed := Ref.lcg_seed;
     random := Ref.lcg_random;
     randbelow := Ref.lcg_randbelow;
     shuffle := Ref.lcg_shuffle;
     random_range := lcg_random_range;
     randbelow_range := lcg_randbelow_range;
     shuffle_Permutation := lcg_shuffle_Permutation |}.

(** ** The claims *)

(** C2: for cut points [0 <= i < j < N] the 2-opt move returns a new list
    object that holds the input with the closed segment [[i, j]] reversed:
    same length, position [p] inside the segment holds what position
    [i + j - p] held, every position outside holds what it held; the input
    object and every other object that existed are left as they were; and
    [two_opt_move([0,1,2,3,4], 1, 3) == [0,3,2,1,4]]. *)
Theorem two_opt_move_reverses_segment :
  (forall (σ : gmap Obj.loc (list Z)) (tour : Obj.loc) (t : list Z) (i j : Z),
     σ !! tour = Some t -> 0 <= i < j -> j < Z.of_nat (length t) ->
     exists (r : Obj.loc) (σ' : gmap Obj.loc (list Z)) (t' : list Z),
       Obj.generate_two_opt_neighbor σ tour i j = Some (r, σ')
       /\ σ' !! r = Some t'
       /\ t' = generate_two_opt_neighbor t i j
       /\ length t' = length t
       /\ (forall p : nat, i <= Z.of_nat p <= j ->
             t' !! p = t !! Z.to_nat (i + j - Z.of_nat p))
       /\ (forall p : nat, Z.of_nat p < i \/ j < Z.of_nat p -> t' !! p = t !! p)
       /\ r <> tour
       /\ σ' !! tour = Some t
       /\ (forall l v, σ !! l = Some v -> σ' !! l = Some v))
  /\ generate_two_opt_neighbor [0; 1; 2; 3; 4] 1 3 = [0; 3; 2; 1; 4].
Proof.
  split; [|reflexivity].
  intros σ tour t i j Ht Hij Hj.
  destruct (generate_two_opt_neighbor_obj σ tour t i j Ht)
    as (r & σ' & Hcall & Hr & Hfresh & Hsub).
  exists r, σ', (generate_two_opt_neighbor t i j).
  split; [done|]. split; [done|]. split; [done|].
  split; [by apply two_opt_length|].
  split; [intros p Hp; by apply two_opt_lookup_inside|].
  split; [intros p Hp; by apply two_opt_lookup_outside|].
  split; [congruence|].
  split; [by eapply lookup_weaken|].
  intros l v Hl. by eapply lookup_weaken.
Qed.

Lemma two_opt_move_reverses_segment_witness :
  exists (r : Obj.loc) (σ' : gmap Obj.loc (list Z)),
    Obj.generate_two_opt_neighbor {[ 0%nat := [0; 1; 2; 3; 4] ]} 0%nat 1 3
      = Some (r, σ')
    /\ σ' !! r = Some [0; 3; 2; 1; 4]
    /\ σ' !! 0%nat = Some [0; 1; 2; 3; 4].
Proof.
  destruct (proj1 two_opt_move_reverses_segment
              {[ 0%nat := [0; 1; 2; 3; 4] ]} 0%nat [0; 1; 2; 3; 4] 1 3)
    as (r & σ' & t' & Hcall & Hr & -> & _ & _ & _ & _ & Hold & _).
  - reflexivity.
  - lia.
  - simpl. lia.
  - exists r, σ'. split; [exact Hcall|]. split; [exact Hr|exact Hold].
Defined.

(** C3: the 2-opt move maps a permutation of [[0, N)] to a permutation of
    [[0, N)] whenever [0 <= i < j < N]: same length, no duplicate, and
    exactly the indices below [N]. *)
Theorem two_opt_preserves_permutation (N : Z) (tour : list Z) (i j : Z) :
  tour ≡ₚ seqZ 0 N -> 0 <= i < j -> j < N ->
  generate_two_opt_neighbor tour i j ≡ₚ seqZ 0 N
  /\ length (generate_two_opt_neighbor tour i j) = length tour
  /\ NoDup (generate_two_opt_neighbor tour i j)
  /\ (forall x, x ∈ generate_two_opt_neighbor tour i j <-> 0 <= x < N).
Proof.
  intros Hperm Hij Hj.
  assert (Hlen : j < Z.of_nat (length tour)).
  { rewrite Hperm, length_seqZ. lia. }
  assert (Hnew : generate_two_opt_neighbor tour i j ≡ₚ seqZ 0 N).
  { by rewrite two_opt_Permutation. }
  split; [done|]. split; [by apply two_opt_length|]. split.
  - rewrite Hnew. apply NoDup_seqZ.
  - intros x. rewrite Hnew, elem_of_seqZ. lia.
Qed.

Lemma two_opt_preserves_permutation_witness :
  generate_two_opt_neighbor [2; 0; 3; 1] 1 2 ≡ₚ seqZ 0 4
  /\ generate_two_opt_neighbor [2; 0; 3; 1] 1 2 = [2; 3; 0; 1].
Proof.
  split; [|reflexivity].
  apply (two_opt_preserves_permutation 4 [2; 0; 3; 1] 1 2).
  - change (seqZ 0 4) with [0; 1; 2; 3].
    apply (Permutation_trans (l' := [0; 2; 3; 1])).
    + apply perm_swap.
    + apply perm_skip. apply (Permutation_trans (l' := [2; 1; 3])).
      * apply perm_skip, perm_swap.
      * apply perm_swap.
  - lia.
  - lia.
Defined.

(** C10: the 2-opt move is an involution: applied twice with the same cut
    points [0 <= i < j < len(tour)] it gives back the original tour. *)
Theorem two_opt_move_involution (tour : list Z) (i j : Z) :
  0 <= i < j -> j < Z.of_nat (length tour) ->
  generate_two_opt_neighbor (generate_two_opt_neighbor tour i j) i j = tour.
Proof.
  intros Hij Hj.
  rewrite (generate_two_opt_neighbor_valid (generate_two_opt_neighbor _ _ _))
    by (rewrite ?two_opt_length; done).
  rewrite generate_two_opt_neighbor_valid by done.
  set (a := take (Z.to_nat i) tour).
  set (m := take (Z.to_nat (j - i + 1)) (drop (Z.to_nat i) tour)).
  set (c := drop (Z.to_nat (j + 1)) tour).
  assert (La : length a = Z.to_nat i) by (unfold a; rewrite length_take; lia).
  assert (Lm : length (reverse m) = Z.to_nat (j - i + 1)).
  { unfold m. rewrite length_reverse, length_take, length_drop. lia. }
  rewrite (take_app_length' a) by done.
  rewrite (drop_app_length' a) by done.
  rewrite (take_app_length' (reverse m)) by done.
  replace (Z.to_nat (j + 1)) with (length a + length (reverse m))%nat by lia.
  rewrite drop_app_add, drop_app_length, reverse_involutive.
  unfold a, m, c.
  replace (Z.to_nat (j + 1)) with (Z.to_nat i + Z.to_nat (j - i + 1))%nat
    by lia.
  by rewrite <-split3.
Qed.

Lemma two_opt_move_involution_witness :
  generate_two_opt_neighbor (generate_two_opt_neighbor [4; 2; 0; 3; 1] 1 3) 1 3
  = [4; 2; 0; 3; 1].
Proof.
  apply (two_opt_move_involution [4; 2; 0; 3; 1] 1 3).
  - lia.
  - simpl. lia.
Defined.

(** C7, as the specification states it, fails: on mis-ordered cut points
    the code returns a list (here not even a permutation) where the
    specified operation signals [InvalidRange]. *)
Lemma two_opt_move_no_range_check :
  generate_two_opt_neighbor [0; 1; 2; 3; 4] 3 1 = [0; 1; 2; 2; 3; 4]
  /\ two_opt_move_spec [0; 1; 2; 3; 4] 3 1 = Raise InvalidRange
  /\ Ok (generate_two_opt_neighbor [0; 1; 2; 3; 4] 3 1)
     <> two_opt_move_spec [0; 1; 2; 3; 4] 3 1.
Proof. split; [reflexivity|]. split; [reflexivity|]. discriminate. Qed.

(** *** The caller of the 2-opt move *)

Section Caller.
Context {libm : Libm} {gen : RandomGen}.
Implicit Types (g : rng) (s : SolverState) (cities : list Point).

Lemma two_opt_move_spec_valid (tour : list Z) (i j : Z) :
  0 <= i < j -> j < Z.of_nat (length tour) ->
  two_opt_move_spec tour i j = Ok (generate_two_opt_neighbor tour i j).
Proof.
  intros Hij Hj. unfold two_opt_move_spec.
  rewrite generate_two_opt_neighbor_valid by done.
  destruct (0 <=? i) eqn:E1; [|lia]. destruct (i <? j) eqn:E2; [|lia].
  destruct (j <? Z.of_nat (length tour)) eqn:E3; [|lia]. done.
Qed.

(** A pass of the loop body leaves the state as it is or replaces the
    current tour by a 2-opt neighbor at cut points inside the tour. *)
Lemma loop_body_move cities n schedule min_temperature s k g s' g' :
  Z.of_nat (length (current_tour s)) = n ->
  loop_body cities n schedule min_temperature s k g = Ok (Next s', g') ->
  s' = s
  \/ exists i j,
       (0 <= i < j /\ j < Z.of_nat (length (current_tour s)))
       /\ current_tour s' = generate_two_opt_neighbor (current_tour s) i j.
Proof.
  intros Hlen. unfold loop_body, bind, lift, ret.
  destruct (temperature_at_iteration schedule k) as [t|]; [|done].
  destruct (t <? min_temperature)%float; [done|].
  destruct (py_randint 0 (n - 1) g) as [[a g1]|] eqn:Ha; [|done].
  destruct (py_randint 0 (n - 1) g1) as [[b g2]|] eqn:Hb; [|done].
  pose proof (cut_points_valid _ _ _ _ _ _ Ha Hb) as Hcut. revert Hcut.
  destruct (if b <? a then (b, a) else (a, b)) as [idx1 idx2]. intros Hcut.
  destruct (idx1 =? idx2) eqn:E; [intros [= <- _]; by left|].
  specialize (Hcut eq_refl).
  destruct (evaluate_tour_length _ cities) as [d|]; [|done].
  destruct (metropolis_acceptance _ d t g2) as [[[] g3]|]; [| |done].
  - destruct (d <? best_distance s)%float; intros [= <- _]; right;
      exists idx1, idx2; (split; [lia|done]).
  - intros [= <- _]. by left.
Qed.

Lemma loop_body_length cities n schedule min_temperature s k g s' g' :
  Z.of_nat (length (current_tour s)) = n ->
  loop_body cities n schedule min_temperature s k g = Ok (Next s', g') ->
  Z.of_nat (length (current_tour s')) = n.
Proof.
  intros Hlen Hbody.
  destruct (loop_body_move _ _ _ _ _ _ _ _ _ Hlen Hbody)
    as [->|(i & j & [Hij Hj] & ->)]; [done|].
  by rewrite two_opt_length.
Qed.

(** In the loop body the check of the specified move never fires. *)
Lemma loop_body_checked_eq cities n schedule min_temperature s k g :
  Z.of_nat (length (current_tour s)) = n ->
  loop_body_checked cities n schedule min_temperature s k g
  = loop_body cities n schedule min_temperature s k g.
Proof.
  intros Hlen. unfold loop_body_checked, loop_body, bind, lift, ret.
  destruct (temperature_at_iteration schedule k) as [t|]; [|done].
  destruct (t <? min_temperature)%float; [done|].
  destruct (py_randint 0 (n - 1) g) as [[a g1]|] eqn:Ha; [|done].
  destruct (py_randint 0 (n - 1) g1) as [[b g2]|] eqn:Hb; [|done].
  pose proof (cut_points_valid _ _ _ _ _ _ Ha Hb) as Hcut. revert Hcut.
  destruct (if b <? a then (b, a) else (a, b)) as [idx1 idx2]. intros Hcut.
  destruct (idx1 =? idx2) eqn:E; [done|].
  specialize (Hcut eq_refl).
  by rewrite two_opt_move_spec_valid by lia.
Qed.

Lemma run_loop_checked_eq cities n schedule min_temperature its :
  forall s last g,
  Z.of_nat (length (current_tour s)) = n ->
  run_loop_checked cities n schedule min_temperature its s last g
  = run_loop cities n schedule min_temperature its s last g.
Proof.
  induction its as [|k its IH]; intros s last g Hlen; simpl; [done|].
  unfold bind. rewrite loop_body_checked_eq by done.
  destruct (loop_body _ _ _ _ s k g) as [[[s1|] g1]|] eqn:Hbody; try done.
  apply IH. by eapply loop_body_length.
Qed.

Lemma solve_checked_eq cities schedule max_iterations min_temperature g :
  solve_checked cities schedule max_iterations min_temperature g
  = solve cities schedule max_iterations min_temperature g.
Proof.
  unfold solve_checked, solve, bind.
  destruct (initial_state cities g) as [[s0 g0]|] eqn:Hinit; [|done].
  apply initial_state_best in Hinit as (_ & _ & Hperm).
  rewrite run_loop_checked_eq; [done|].
  rewrite Hperm. unfold py_range. rewrite length_seqZ. lia.
Qed.

End Caller.

(** C7, amended: the 2-opt move checks nothing and signals nothing.  On cut
    points [0 <= i < j < N] it returns what the specified operation
    returns, and the precondition is established by its only caller.  A
    pass of the solver's loop body on a tour of [num_cities] entries leaves
    the state as it is or moves to the 2-opt neighbor at cut points
    [0 <= i < j < len(current_tour)]; with the checking move in place of
    the unchecked one the loop body gives the same outcome, and so does the
    whole of [solve], for every input: [InvalidRange] never surfaces. *)
Theorem two_opt_move_precondition_by_caller
    {libm : Libm} {gen : RandomGen} :
  (forall (tour : list Z) (i j : Z),
     0 <= i < j -> j < Z.of_nat (length tour) ->
     two_opt_move_spec tour i j = Ok (generate_two_opt_neighbor tour i j))
  /\ (forall (cities : list Point) (num_cities : Z)
        (schedule : CoolingSchedule) (min_temperature : float)
        (s : SolverState) (k : Z) (g : rng) (s' : SolverState) (g' : rng),
        Z.of_nat (length (current_tour s)) = num_cities ->
        loop_body cities num_cities schedule min_temperature s k g
          = Ok (Next s', g') ->
        s' = s
        \/ exists i j,
             (0 <= i < j /\ j < Z.of_nat (length (current_tour s)))
             /\ current_tour s'
                = generate_two_opt_neighbor (current_tour s) i j)
  /\ (forall (cities : list Point) (num_cities : Z)
        (schedule : CoolingSchedule) (min_temperature : float)
        (s : SolverState) (k : Z) (g : rng),
        Z.of_nat (length (current_tour s)) = num_cities ->
        loop_body_checked cities num_cities schedule min_temperature s k g
        = loop_body cities num_cities schedule min_temperature s k g)
  /\ (forall (cities : list Point) (schedule : CoolingSchedule)
        (max_iterations : Z) (min_temperature : float) (g : rng),
        solve_checked cities schedule max_iterations min_temperature g
        = solve cities schedule max_iterations min_temperature g).
Proof.
  split; [apply two_opt_move_spec_valid|].
  split; [apply loop_body_move|].
  split; [apply loop_body_checked_eq|apply solve_checked_eq].
Qed.

(** The unit square of the end-to-end scenario. *)
Definition unit_square : list Point :=
  [ {| px := 0; py := 0 |}; {| px := 0; py := 1 |};
    {| px := 1; py := 1 |}; {| px := 1; py := 0 |} ]%float.

(** A state whose tour crosses the unit square, with its length
    [2 + 2 * sqrt 2]. *)
Definition crossed_state : SolverState :=
  {| current_tour := [0; 2; 1; 3]; current_distance := 4.8284271247461898;
     best_tour := [0; 2; 1; 3]; best_distance := 4.8284271247461898 |}.

Lemma two_opt_move_precondition_by_caller_witness :
  two_opt_move_spec [0; 1; 2; 3; 4] 1 3 = Ok [0; 3; 2; 1; 4]
  /\ exists s' g',
       @loop_body ref_libm lcg unit_square 4 (LinearSchedule 1000 0.2) 1e-8
         crossed_state 0 (Ref.lcg_seed 3) = Ok (Next s', g')
       /\ (s' = crossed_state
           \/ exists i j,
                (0 <= i < j
                 /\ j < Z.of_nat (length (current_tour crossed_state)))
                /\ current_tour s'
                   = generate_two_opt_neighbor
                       (current_tour crossed_state) i j).
Proof.
  split.
  - apply (proj1 (@two_opt_move_precondition_by_caller ref_libm lcg)
             [0; 1; 2; 3; 4] 1 3); simpl; lia.
  - eexists _, _.
    refine (let Hrun := _ in
            conj Hrun
              (proj1 (proj2 (@two_opt_move_precondition_by_caller ref_libm lcg))
                 unit_square 4 (LinearSchedule 1000 0.2) 1e-8%float
                 crossed_state 0 (Ref.lcg_seed 3) _ _ eq_refl Hrun)).
    vm_compute. reflexivity.
Defined.

(** C1: the acceptance rule.  A cheaper candidate is accepted whatever the
    temperature, and without consuming a draw.  Otherwise, with a positive
    temperature, the answer is [r < exp(-(c' - c) / T)] for the next draw
    [r] of the generator (a float in [[0, 1)]), the division never
    raising; with any other temperature the answer is false. *)
Theorem metropolis_acceptance_rule {libm : Libm} {gen : RandomGen}
    (c c' T : float) (g : rng) :
  ((c' <? c)%float = true -> metropolis_acceptance c c' T g = Ok (true, g))
  /\ ((c' <? c)%float = false -> (0 <? T)%float = true ->
      metropolis_acceptance c c' T g =
        match math_exp (- (c' - c) / T)%float with
        | Ok p => Ok (((random g).1 <? p)%float, (random g).2)
        | Raise e => Raise e
        end)
  /\ ((c' <? c)%float = false -> (0 <? T)%float = false ->
      metropolis_acceptance c c' T g = Ok (false, (random g).2)).
Proof.
  split; [apply metropolis_improvement|].
  split; [apply metropolis_warm|apply metropolis_cold].
Qed.

Lemma metropolis_acceptance_rule_witness :
  @metropolis_acceptance ref_libm lcg 5 3 1 (Ref.lcg_seed 1)
    = Ok (true, Ref.lcg_seed 1)
  /\ @metropolis_acceptance ref_libm lcg 3 5 2 (Ref.lcg_seed 2)
     = match Ref.ref_exp (- (5 - 3) / 2)%float with
       | Ok p => Ok (((Ref.lcg_random (Ref.lcg_seed 2)).1 <? p)%float,
                     (Ref.lcg_random (Ref.lcg_seed 2)).2)
       | Raise e => Raise e
       end
  /\ @metropolis_acceptance ref_libm lcg 5 10 0 (Ref.lcg_seed 1)
     = Ok (false, (Ref.lcg_random (Ref.lcg_seed 1)).2).
Proof.
  split; [|split].
  - apply (metropolis_acceptance_rule (libm := ref_libm) (gen := lcg)
             5 3 1 (Ref.lcg_seed 1)). reflexivity.
  - apply (metropolis_acceptance_rule (libm := ref_libm) (gen := lcg)
             3 5 2 (Ref.lcg_seed 2)); reflexivity.
  - apply (metropolis_acceptance_rule (libm := ref_libm) (gen := lcg)
             5 10 0 (Ref.lcg_seed 1)); reflexivity.
Defined.




(** C8, as the specification states it, fails: for a tour of length 0 the
    code returns [0.0]; it does not signal [InvalidInput]. *)
Lemma tour_length_empty_returns_zero :
  evaluate_tour_length [] [] = Ok 0%float
  /\ evaluate_tour_length [] [] <> Raise InvalidInput.
Proof. split; [reflexivity|discriminate]. Qed.

(** C8, amended: for every tour whose entries are indices into the point
    list, [evaluate_tour_length] returns the cyclic sum of the distances,
    added up from [0.0] for [i = 0, ..., N-1]; for a one-element tour over a
    point with finite coordinates it returns 0; for a tour of length 0 it
    returns [0.0]. *)
Theorem tour_length_cyclic_sum :
  (forall (tour : list Z) (cities : list Point),
     valid_tour tour cities ->
     evaluate_tour_length tour cities
     = Ok (spec_tour_length (Z.to_nat <$> tour) cities))
  /\ (forall (t : Z) (c : Point) (cities : list Point),
        py_getitem cities t = Ok c ->
        is_finite (px c) = true -> is_finite (py c) = true ->
        evaluate_tour_length [t] cities = Ok 0%float)
  /\ (forall cities : list Point, evaluate_tour_length [] cities = Ok 0%float).
Proof.
  split; [apply evaluate_tour_length_spec|].
  split; [apply evaluate_tour_length_single|done].
Qed.

Lemma tour_length_cyclic_sum_witness :
  evaluate_tour_length [0; 1; 2; 3] unit_square
    = Ok (spec_tour_length [0; 1; 2; 3]%nat unit_square)
  /\ spec_tour_length [0; 1; 2; 3]%nat unit_square = 4%float
  /\ evaluate_tour_length [2] unit_square = Ok 0%float.
Proof.
  split; [|split].
  - apply (proj1 tour_length_cyclic_sum [0; 1; 2; 3] unit_square).
    unfold valid_tour. repeat constructor; simpl; lia.
  - reflexivity.
  - apply (proj1 (proj2 tour_length_cyclic_sum) 2 {| px := 1; py := 1 |});
      reflexivity.
Defined.

(** C4: within a run the recorded best cost never goes up.  One pass
    through the loop body either keeps the best pair or replaces it by the
    new current pair, and only when the new current cost is strictly below
    the best cost recorded so far; hence the best cost after [m] passes is
    the best cost after [k <= m] passes or strictly below it; and what
    [solve] returns is the best pair of the last state, which started as
    the initial tour and its cost. *)
Theorem best_cost_monotone {libm : Libm} {gen : RandomGen}
    (cities : list Point) (schedule : CoolingSchedule)
    (min_temperature : float) :
  (forall (n : Z) (s : SolverState) (k : Z) (g : rng) (f : flow) (g' : rng),
     loop_body cities n schedule min_temperature s k g = Ok (f, g') ->
     f = Break
     \/ exists s', f = Next s' /\ (best_kept s s' \/ best_replaced s s'))
  /\ (forall (n k m : Z) (s0 : SolverState) (g : rng) s1 l1 g1 s2 l2 g2,
        0 <= k <= m ->
        run_loop cities n schedule min_temperature (py_range k) s0 None g
          = Ok ((s1, l1), g1) ->
        run_loop cities n schedule min_temperature (py_range m) s0 None g
          = Ok ((s2, l2), g2) ->
        best_not_above s1 s2)
  /\ (forall (max_iterations : Z) (g : rng) (r : SolveResult) (g' : rng),
        solve cities schedule max_iterations min_temperature g = Ok (r, g') ->
        exists s0 g0 s l,
          initial_state cities g = Ok (s0, g0)
          /\ run_loop cities (Z.of_nat (length cities)) schedule
               min_temperature (py_range max_iterations) s0 None g0
             = Ok ((s, l), g')
          /\ best_route r = best_tour s /\ best_cost r = best_distance s
          /\ best_tour s0 = current_tour s0
          /\ best_distance s0 = current_distance s0
          /\ best_not_above s0 s).
Proof.
  split; [|split].
  - intros n s k g f g'. apply loop_body_step.
  - intros n k m s0 g s1 l1 g1 s2 l2 g2 Hkm H1 H2.
    unfold py_range in H2.
    replace m with (k + (m - k)) in H2 by lia.
    rewrite seqZ_app in H2 by lia.
    apply run_loop_app in H2 as (s1' & l1' & g1' & H1' & Hrest).
    unfold py_range in H1. rewrite H1 in H1'. injection H1' as <- <- <-.
    destruct Hrest as [[= <- _ _]|Hrest].
    + apply best_not_above_refl.
    + by eapply run_loop_not_above.
  - intros max_iterations g r g' Hsolve.
    apply solve_Ok_inv in Hsolve as (s0 & g0 & s & k & Hinit & Hloop & -> & _).
    exists s0, g0, s, (Some k).
    destruct (initial_state_best _ _ _ _ Hinit) as (Ht & Hd & _).
    repeat split; try done. by eapply run_loop_not_above.
Qed.

(** Five cities on which a short run improves its best tour. *)
Definition five_cities : list Point :=
  [ {| px := 0; py := 0 |}; {| px := 1; py := 1 |}; {| px := 0; py := 1 |};
    {| px := 1; py := 0 |}; {| px := 2; py := 0.5 |} ]%float.

Lemma best_cost_monotone_witness :
  exists s0 g0 s1 l1 g1 s2 l2 g2,
    @initial_state lcg five_cities (Ref.lcg_seed 1) = Ok (s0, g0)
    /\ @run_loop ref_libm lcg five_cities 5 (ExponentialSchedule 10 0.9) 1e-8
         (py_range 3) s0 None g0 = Ok ((s1, l1), g1)
    /\ @run_loop ref_libm lcg five_cities 5 (ExponentialSchedule 10 0.9) 1e-8
         (py_range 8) s0 None g0 = Ok ((s2, l2), g2)
    /\ best_not_above s1 s2
    /\ (best_distance s2 <? best_distance s1)%float = true.
Proof.
  do 8 eexists.
  split; [vm_compute; reflexivity|].
  match goal with
  | |- @run_loop _ _ _ _ _ _ _ ?s0 None ?g0 = _ /\ _ =>
      split; [vm_compute; reflexivity|];
      split; [vm_compute; reflexivity|];
      split; [|vm_compute; reflexivity];
      eapply (proj1 (proj2 (@best_cost_monotone ref_libm lcg five_cities
                              (ExponentialSchedule 10 0.9) 1e-8))
                5 3 8 s0 g0)
  end.
  - lia.
  - vm_compute. reflexivity.
  - vm_compute. reflexivity.
Defined.

(** C6, as the specification states it, fails: with one city, the linear
    schedule and the default parameters, the run on the reference generator
    signals nothing and returns with all 5000 passes counted; and no run
    that returns, on any generator, ever reports zero iterations. *)
Lemma solve_single_city_counts_iterations :
  (exists g' : Z,
     @solve ref_libm lcg [ {| px := 3; py := 4 |} ]
       (LinearSchedule 1000 0.2) 5000 1e-8 (Ref.lcg_seed 42)
     = Ok ({| best_route := [0]; best_cost := 0;
              iterations_performed := 5000 |}, g'))
  /\ ~ (exists (libm : Libm) (gen : RandomGen) (c : Point)
          (schedule : CoolingSchedule) (max_iterations : Z)
          (min_temperature : float) (g : rng) (r : SolveResult) (g' : rng),
          solve [c] schedule max_iterations min_temperature g = Ok (r, g')
          /\ iterations_performed r = 0).
Proof.
  split.
  - eexists. vm_compute. reflexivity.
  - intros (libm & gen & c & schedule & n & t & g & r & g' & Hsolve & Hzero).
    apply solve_Ok_inv in Hsolve as (s0 & g0 & s & k & _ & _ & -> & Hk).
    simpl in Hzero. lia.
Qed.

(** C6, amended: the solver has no check on the number of cities.  For
    [max_iterations >= 1] and a schedule whose temperature is defined on
    every iteration below [max_iterations]: with one city of finite
    coordinates the solver signals nothing; it returns the one-element tour
    [[0]] with best cost [0.0], every pass through the loop body that gets
    past the temperature check draws equal indices and leaves the state as
    it is, and the passes are counted: [iterations_performed] lies between
    1 and [max_iterations].  With no city, the first pass raises
    [ValueError] at the index draw if it gets past the temperature check,
    and otherwise the solver returns the empty tour with cost [0.0] after
    that one pass. *)
Theorem solve_degenerate_inputs {libm : Libm} {gen : RandomGen}
    (schedule : CoolingSchedule) (max_iterations : Z)
    (min_temperature : float) (g : rng) :
  1 <= max_iterations ->
  (forall k, 0 <= k < max_iterations ->
     exists t, temperature_at_iteration schedule k = Ok t) ->
  (forall c : Point,
     is_finite (px c) = true -> is_finite (py c) = true ->
     exists n g',
       solve [c] schedule max_iterations min_temperature g
       = Ok ({| best_route := [0]; best_cost := 0%float;
                iterations_performed := n |}, g')
       /\ 1 <= n <= max_iterations)
  /\ (forall (c : Point) (s : SolverState) (k : Z) (g0 : rng) (t : float),
        temperature_at_iteration schedule k = Ok t ->
        exists g',
          loop_body [c] 1 schedule min_temperature s k g0
          = Ok (if (t <? min_temperature)%float then Break else Next s, g'))
  /\ (forall t : float,
        temperature_at_iteration schedule 0 = Ok t ->
        (t <? min_temperature)%float = false ->
        solve [] schedule max_iterations min_temperature g = Raise ValueError)
  /\ (forall t : float,
        temperature_at_iteration schedule 0 = Ok t ->
        (t <? min_temperature)%float = true ->
        exists g',
          solve [] schedule max_iterations min_temperature g
          = Ok ({| best_route := []; best_cost := 0%float;
                   iterations_performed := 1 |}, g')).
Proof.
  intros Hmax Hdef. split; [|split; [|split]].
  - intros c Hx Hy. by apply solve_single.
  - intros c s k g0 t. apply loop_body_single.
  - intros t. by apply solve_empty_raises.
  - intros t. by apply solve_empty_cold.
Qed.

Lemma solve_degenerate_inputs_witness :
  (exists n g',
     @solve ref_libm lcg [ {| px := 3; py := 4 |} ]
       (LinearSchedule 1000 0.2) 3 1e-8 (Ref.lcg_seed 42)
     = Ok ({| best_route := [0]; best_cost := 0%float;
              iterations_performed := n |}, g')
     /\ 1 <= n <= 3)
  /\ @solve ref_libm lcg [] (LinearSchedule 1000 0.2) 3 1e-8 (Ref.lcg_seed 42)
     = Raise ValueError.
Proof.
  assert (Hdef : forall k, 0 <= k < 3 ->
            exists t, @temperature_at_iteration ref_libm
                        (LinearSchedule 1000 0.2) k = Ok t).
  { intros k Hk. assert (k = 0 \/ k = 1 \/ k = 2) as [-> | [-> | ->]] by lia;
      eexists; reflexivity. }
  destruct (@solve_degenerate_inputs ref_libm lcg (LinearSchedule 1000 0.2)
              3 1e-8 (Ref.lcg_seed 42) ltac:(lia) Hdef) as (H1 & _ & H0 & _).
  split.
  - apply (H1 {| px := 3; py := 4 |}); reflexivity.
  - apply (H0 1000%float); reflexivity.
Defined.

(** * Further properties of the program *)

(** ** Invariants of the search state *)

(** Both tours of the state are permutations of the city indices, and each
    recorded cost is what [evaluate_tour_length] gives for its tour. *)
Definition consistent (cities : list Point) (s : SolverState) : Prop :=
  current_tour s ≡ₚ py_range (Z.of_nat (length cities))
  /\ best_tour s ≡ₚ py_range (Z.of_nat (length cities))
  /\ evaluate_tour_length (current_tour s) cities = Ok (current_distance s)
  /\ evaluate_tour_length (best_tour s) cities = Ok (best_distance s).

(** The temperature of iteration [k] is defined and not below the minimum. *)
Definition warm {libm : Libm} (schedule : CoolingSchedule)
    (min_temperature : float) (k : Z) : Prop :=
  exists t, temperature_at_iteration schedule k = Ok t
            /\ (t <? min_temperature)%float = false.

Section RunInvariants.
Context {libm : Libm} {gen : RandomGen}.
Implicit Types (g : rng) (s : SolverState) (cities : list Point).

Lemma Permutation_range_valid_tour (t : list Z) cities :
  t ≡ₚ py_range (Z.of_nat (length cities)) -> valid_tour t cities.
Proof.
  intros Hp. apply Forall_forall. intros x Hx.
  rewrite Hp in Hx. apply elem_of_seqZ in Hx. lia.
Qed.

Lemma Permutation_range_length (t : list Z) (n : nat) :
  t ≡ₚ py_range (Z.of_nat n) -> length t = n.
Proof. intros ->. unfold py_range. rewrite length_seqZ. lia. Qed.

Lemma initial_state_consistent cities g :
  exists s0 g0, initial_state cities g = Ok (s0, g0) /\ consistent cities s0.
Proof.
  unfold initial_state, bind, py_shuffle, lift, ret.
  pose proof (shuffle_Permutation (py_range (Z.of_nat (length cities))) g)
    as Hp.
  destruct (shuffle _ g) as [t g1]. simpl in Hp.
  pose proof (evaluate_tour_length_spec t cities
                (Permutation_range_valid_tour _ _ Hp)) as Hlen.
  rewrite Hlen. eexists _, _. split; [done|]. by repeat split.
Qed.

Lemma loop_body_consistent cities schedule min_temperature s k g s' g' :
  consistent cities s ->
  loop_body cities (Z.of_nat (length cities)) schedule min_temperature s k g
    = Ok (Next s', g') ->
  consistent cities s'.
Proof.
  intros (Hc & Hb & Hcd & Hbd). unfold loop_body, bind, lift, ret.
  destruct (temperature_at_iteration schedule k) as [t|]; [|done].
  destruct (t <? min_temperature)%float; [done|].
  destruct (py_randint 0 _ g) as [[a g1]|] eqn:Ha; [|done].
  destruct (py_randint 0 _ g1) as [[b g2]|] eqn:Hb'; [|done].
  pose proof (cut_points_valid _ _ _ _ _ _ Ha Hb') as Hcut. revert Hcut.
  destruct (if b <? a then (b, a) else (a, b)) as [idx1 idx2]. intros Hcut.
  destruct (idx1 =? idx2) eqn:E; [by intros [= <- <-]|].
  specialize (Hcut eq_refl).
  assert (Hn : generate_two_opt_neighbor (current_tour s) idx1 idx2
               ≡ₚ py_range (Z.of_nat (length cities))).
  { rewrite two_opt_Permutation; [done|lia|].
    rewrite (Permutation_range_length _ _ Hc). lia. }
  destruct (evaluate_tour_length (generate_two_opt_neighbor _ _ _) cities)
    as [d|] eqn:Hd; [|done].
  destruct (metropolis_acceptance _ d t g2) as [[[] g3]|]; [| |done].
  - destruct (d <? best_distance s)%float; intros [= <- <-]; by repeat split.
  - by intros [= <- <-].
Qed.

Lemma run_loop_consistent cities schedule min_temperature its :
  forall s last g s' last' g',
  consistent cities s ->
  run_loop cities (Z.of_nat (length cities)) schedule min_temperature
    its s last g = Ok ((s', last'), g') ->
  consistent cities s'.
Proof.
  induction its as [|k its IH]; intros s last g s' last' g' Hs; simpl.
  - unfold ret. by intros [= <- _ _].
  - unfold bind at 1.
    destruct (loop_body _ _ _ _ s k g) as [[[s1|] g1]|] eqn:Hbody; [| |done].
    + apply IH. by eapply loop_body_consistent.
    + unfold ret. by intros [= <- _ _].
Qed.

Lemma solve_consistent cities schedule max_iterations min_temperature g r g' :
  solve cities schedule max_iterations min_temperature g = Ok (r, g') ->
  best_route r ≡ₚ py_range (Z.of_nat (length cities))
  /\ evaluate_tour_length (best_route r) cities = Ok (best_cost r).
Proof.
  intros (s0 & g0 & s & k & Hinit & Hloop & -> & _)%solve_Ok_inv.
  destruct (initial_state_consistent cities g) as (s0' & g0' & Hinit' & Hs0).
  rewrite Hinit in Hinit'. injection Hinit' as <- <-.
  destruct (run_loop_consistent _ _ _ _ _ _ _ _ _ _ Hs0 Hloop)
    as (_ & Hb & _ & Hbd).
  by split.
Qed.

(** The temperature test of a pass decides how it ends. *)
Lemma loop_body_temperature cities n schedule min_temperature s k g f g' :
  loop_body cities n schedule min_temperature s k g = Ok (f, g') ->
  exists t, temperature_at_iteration schedule k = Ok t
    /\ (t <? min_temperature)%float
       = match f with Break => true | Next _ => false end.
Proof.
  unfold loop_body, bind, lift, ret.
  destruct (temperature_at_iteration schedule k) as [t|]; [|done].
  intros Hbody. exists t. split; [done|]. revert Hbody.
  destruct (t <? min_temperature)%float; [by intros [= <- _]|].
  destruct (py_randint 0 (n - 1) g) as [[a g1]|]; [|done].
  destruct (py_randint 0 (n - 1) g1) as [[b g2]|]; [|done].
  destruct (if b <? a then (b, a) else (a, b)) as [idx1 idx2].
  destruct (idx1 =? idx2); [by intros [= <- _]|].
  destruct (evaluate_tour_length _ cities) as [d|]; [|done].
  destruct (metropolis_acceptance _ d t g2) as [[[] g3]|]; [| |done].
  - by destruct (d <? best_distance s)%float; intros [= <- _].
  - by intros [= <- _].
Qed.

(** Where a loop that returns stopped: after a first cold iteration, all
    earlier ones being warm, or after the last iteration. *)
Lemma run_loop_stops cities n schedule min_temperature its :
  forall s last g s' last' g',
  run_loop cities n schedule min_temperature its s last g
    = Ok ((s', last'), g') ->
  (its = [] /\ last' = last)
  \/ exists pre k post t,
       its = pre ++ k :: post /\ last' = Some k
       /\ Forall (warm schedule min_temperature) pre
       /\ temperature_at_iteration schedule k = Ok t
       /\ ((t <? min_temperature)%float = true
           \/ ((t <? min_temperature)%float = false /\ post = [])).
Proof.
  induction its as [|k its IH]; intros s last g s' last' g'; simpl.
  - unfold ret. intros [= _ <- _]. by left.
  - unfold bind at 1.
    destruct (loop_body _ _ _ _ s k g) as [[f g1]|] eqn:Hbody; [|done].
    apply loop_body_temperature in Hbody as (t & Ht & Hcmp).
    destruct f as [s1|].
    + intros [[-> ->]|(pre & k' & post & t' & -> & -> & Hpre & Ht' & Hend)]%IH;
        right.
      * exists [], k, [], t. repeat split; try done. by right.
      * exists (k :: pre), k', post, t'. repeat split; try done.
        apply Forall_cons. split; [by exists t|done].
    + unfold ret. intros [= _ <- _]. right.
      exists [], k, its, t. repeat split; try done. by left.
Qed.

End RunInvariants.

(** X1: whenever [solve] returns, the tour it returns is a permutation of
    the city indices [0, ..., N-1]: as long as the city list, without a
    duplicate. *)
Theorem solve_returns_permutation {libm : Libm} {gen : RandomGen}
    (cities : list Point) (schedule : CoolingSchedule) (max_iterations : Z)
    (min_temperature : float) (g : rng) (r : SolveResult) (g' : rng) :
  solve cities schedule max_iterations min_temperature g = Ok (r, g') ->
  best_route r ≡ₚ seqZ 0 (Z.of_nat (length cities))
  /\ length (best_route r) = length cities
  /\ NoDup (best_route r).
Proof.
  intros [Hp _]%solve_consistent. split; [done|]. split.
  - by apply Permutation_range_length.
  - rewrite Hp. apply NoDup_seqZ.
Qed.

Lemma solve_returns_permutation_witness :
  exists r g',
    @solve ref_libm lcg five_cities (ExponentialSchedule 10 0.9) 300 1e-8
      (Ref.lcg_seed 1) = Ok (r, g')
    /\ best_route r ≡ₚ seqZ 0 5.
Proof.
  eexists _, _.
  refine (let Hrun := _ in
          conj Hrun (proj1 (@solve_returns_permutation ref_libm lcg
                              five_cities (ExponentialSchedule 10 0.9) 300
                              1e-8 (Ref.lcg_seed 1) _ _ Hrun))).
  vm_compute. reflexivity.
Defined.

(** X2: whenever [solve] returns, the cost it returns is the length of the
    tour it returns, as [evaluate_tour_length] computes it. *)
Theorem solve_cost_is_tour_length {libm : Libm} {gen : RandomGen}
    (cities : list Point) (schedule : CoolingSchedule) (max_iterations : Z)
    (min_temperature : float) (g : rng) (r : SolveResult) (g' : rng) :
  solve cities schedule max_iterations min_temperature g = Ok (r, g') ->
  evaluate_tour_length (best_route r) cities = Ok (best_cost r).
Proof. by intros [_ Hd]%solve_consistent. Qed.

Lemma solve_cost_is_tour_length_witness :
  exists r g',
    @solve ref_libm lcg five_cities (ExponentialSchedule 10 0.9) 300 1e-8
      (Ref.lcg_seed 1) = Ok (r, g')
    /\ evaluate_tour_length (best_route r) five_cities = Ok (best_cost r).
Proof.
  eexists _, _.
  refine (let Hrun := _ in
          conj Hrun (@solve_cost_is_tour_length ref_libm lcg
                       five_cities (ExponentialSchedule 10 0.9) 300
                       1e-8 (Ref.lcg_seed 1) _ _ Hrun)).
  vm_compute. reflexivity.
Defined.

(** X3: with [max_iterations <= 0] the loop body never runs, the loop
    variable stays unbound, and [solve] raises [UnboundLocalError] at
    [iteration + 1], whatever the cities, schedule and generator state. *)
Theorem solve_without_iterations {libm : Libm} {gen : RandomGen}
    (cities : list Point) (schedule : CoolingSchedule) (max_iterations : Z)
    (min_temperature : float) (g : rng) :
  max_iterations <= 0 ->
  solve cities schedule max_iterations min_temperature g
  = Raise UnboundLocalError.
Proof.
  intros Hmax. unfold solve, bind.
  destruct (initial_state_consistent cities g) as (s0 & g0 & -> & _).
  unfold py_range. by rewrite seqZ_nil.
Qed.

Lemma solve_without_iterations_witness :
  @solve ref_libm lcg five_cities (LinearSchedule 1000 0.2) 0 1e-8
    (Ref.lcg_seed 1) = Raise UnboundLocalError.
Proof.
  apply (@solve_without_iterations ref_libm lcg five_cities
           (LinearSchedule 1000 0.2) 0 1e-8 (Ref.lcg_seed 1)).
  lia.
Defined.

(** X4: how many iterations a returning [solve] reports.  With
    [n = iterations_performed], [1 <= n <= max_iterations]; every
    iteration before the last one, [n - 1], had a temperature not below
    [min_temperature]; and the last one either had a temperature below it
    (the loop stopped at [break], that pass included in the count) or was
    iteration [max_iterations - 1]. *)
Theorem solve_iteration_count {libm : Libm} {gen : RandomGen}
    (cities : list Point) (schedule : CoolingSchedule) (max_iterations : Z)
    (min_temperature : float) (g : rng) (r : SolveResult) (g' : rng) :
  solve cities schedule max_iterations min_temperature g = Ok (r, g') ->
  1 <= iterations_performed r <= max_iterations
  /\ (forall j, 0 <= j < iterations_performed r - 1 ->
        warm schedule min_temperature j)
  /\ exists t,
       temperature_at_iteration schedule (iterations_performed r - 1) = Ok t
       /\ ((t <? min_temperature)%float = true
           \/ ((t <? min_temperature)%float = false
               /\ iterations_performed r = max_iterations)).
Proof.
  intros (s0 & g0 & s & k & _ & Hloop & -> & Hk)%solve_Ok_inv. simpl.
  replace (k + 1 - 1) with k by lia.
  apply run_loop_stops in Hloop
    as [[_ [=]]|(pre & k' & post & t & Hits & [= <-] & Hpre & Ht & Hend)].
  assert (Hlook : forall (i : nat) x,
            (pre ++ k :: post) !! i = Some x -> x = Z.of_nat i).
  { intros i x Hx. rewrite <-Hits in Hx. unfold py_range in Hx.
    apply lookup_seqZ in Hx. lia. }
  assert (Hkpre : k = Z.of_nat (length pre)).
  { apply Hlook. by rewrite list_lookup_middle. }
  split; [lia|]. split.
  - intros j Hj.
    destruct (lookup_lt_is_Some_2 pre (Z.to_nat j)) as [x Hx]; [lia|].
    pose proof (Hlook (Z.to_nat j) x
                  (lookup_app_l_Some _ _ _ _ Hx)) as ->.
    rewrite Z2Nat.id in Hx by lia.
    by apply (proj1 (Forall_lookup _ _) Hpre (Z.to_nat j)).
  - exists t. split; [done|].
    destruct Hend as [Hcold|[Hw ->]]; [by left|right]. split; [done|].
    apply (f_equal length) in Hits. unfold py_range in Hits.
    rewrite length_seqZ, length_app in Hits. simpl in Hits. lia.
Qed.

Lemma solve_iteration_count_witness :
  exists r g',
    @solve ref_libm lcg five_cities (ExponentialSchedule 10 0.9) 300 1e-8
      (Ref.lcg_seed 1) = Ok (r, g')
    /\ 1 <= iterations_performed r <= 300.
Proof.
  eexists _, _.
  refine (let Hrun := _ in
          conj Hrun (proj1 (@solve_iteration_count ref_libm lcg
                              five_cities (ExponentialSchedule 10 0.9)
                              300 1e-8 (Ref.lcg_seed 1) _ _ Hrun))).
  vm_compute. reflexivity.
Defined.

(** ** Errors of the tour length *)

(** An index Python accepts for a list of this length. *)
Definition index_in_range {A} (l : list A) (i : Z) : Prop :=
  - Z.of_nat (length l) <= i < Z.of_nat (length l).

Section TourLengthErrors.
Implicit Types (tour : list Z) (cities : list Point).

Lemma py_getitem_in_range {A} (l : list A) (i : Z) :
  index_in_range l i -> exists x, py_getitem l i = Ok x.
Proof.
  unfold index_in_range, py_getitem. intros Hi.
  set (k := if i <? 0 then i + Z.of_nat (length l) else i).
  assert (Hk : 0 <= k < Z.of_nat (length l)).
  { unfold k. destruct (i <? 0) eqn:E; lia. }
  destruct (k <? 0) eqn:E1; [lia|].
  destruct (Z.of_nat (length l) <=? k) eqn:E2; [lia|]. simpl.
  destruct (lookup_lt_is_Some_2 l (Z.to_nat k)) as [x ->]; [lia|].
  by exists x.
Qed.

Lemma py_getitem_out_of_range {A} (l : list A) (i : Z) :
  ~ index_in_range l i -> py_getitem l i = Raise IndexError.
Proof.
  unfold index_in_range, py_getitem. intros Hi.
  destruct (i <? 0) eqn:E.
  - destruct (i + Z.of_nat (length l) <? 0) eqn:E1; [done|lia].
  - destruct (i <? 0) eqn:E1; [lia|].
    destruct (Z.of_nat (length l) <=? i) eqn:E2; [done|lia].
Qed.

Lemma index_in_range_dec {A} (l : list A) (i : Z) :
  index_in_range l i \/ ~ index_in_range l i.
Proof. unfold index_in_range. lia. Qed.

(** One pass of the summation loop visits the entries at [p] and at the
    next position; the loop goes on if both index a city and raises
    [IndexError] otherwise. *)
Lemma tour_length_loop_step tour cities (p : nat) (rest : list Z)
    (total : float) (t : Z) :
  tour !! p = Some t ->
  (index_in_range cities t
   /\ exists d, tour_length_loop tour cities (Z.of_nat (length tour))
                  (Z.of_nat p :: rest) total
                = tour_length_loop tour cities (Z.of_nat (length tour))
                    rest (total + d)%float
                \/ tour_length_loop tour cities (Z.of_nat (length tour))
                     (Z.of_nat p :: rest) total = Raise IndexError)
  \/ (~ index_in_range cities t
      /\ tour_length_loop tour cities (Z.of_nat (length tour))
           (Z.of_nat p :: rest) total = Raise IndexError).
Proof.
  intros Ht. pose proof (lookup_lt_Some _ _ _ Ht) as Hp.
  assert (Hn : ((p + 1) mod length tour < length tour)%nat)
    by (apply Nat.mod_upper_bound; lia).
  destruct (lookup_lt_is_Some_2 tour _ Hn) as [t' Ht'].
  simpl. rewrite (py_getitem_lookup _ _ _ Ht). simpl.
  unfold py_mod. destruct (Z.of_nat (length tour) =? 0) eqn:E; [lia|]. simpl.
  replace ((Z.of_nat p + 1) mod Z.of_nat (length tour))
    with (Z.of_nat ((p + 1) mod length tour))
    by (rewrite Nat2Z.inj_mod; f_equal; lia).
  rewrite (py_getitem_lookup _ _ _ Ht'). simpl.
  destruct (index_in_range_dec cities t) as [Hin|Hout].
  - left. split; [done|].
    destruct (py_getitem_in_range cities t Hin) as [c ->]. simpl.
    destruct (index_in_range_dec cities t') as [Hin'|Hout'].
    + destruct (py_getitem_in_range cities t' Hin') as [c' ->]. simpl.
      rewrite distance_between_Ok. simpl. eexists. by left.
    + rewrite (py_getitem_out_of_range cities t' Hout'). simpl.
      exists 0%float. by right.
  - right. split; [done|].
    by rewrite (py_getitem_out_of_range cities t Hout).
Qed.

Lemma tour_length_loop_result tour cities (ps : list nat) :
  forall total : float,
  Forall (fun p => (p < length tour)%nat) ps ->
  tour_length_loop tour cities (Z.of_nat (length tour))
    ((fun i : nat => Z.of_nat i + 0) <$> ps) total = Raise IndexError
  \/ (exists d, tour_length_loop tour cities (Z.of_nat (length tour))
                  ((fun i : nat => Z.of_nat i + 0) <$> ps) total = Ok d)
     /\ Forall (fun p => forall t, tour !! p = Some t ->
                         index_in_range cities t) ps.
Proof.
  induction ps as [|p ps IH]; intros total Hps.
  - right. split; [by exists total|constructor].
  - apply Forall_cons in Hps as [Hp Hps].
    destruct (lookup_lt_is_Some_2 tour p Hp) as [t Ht].
    rewrite fmap_cons, Z.add_0_r.
    destruct (tour_length_loop_step tour cities p
                ((fun i : nat => Z.of_nat i + 0) <$> ps) total t Ht)
      as [[Hin [d [->| ->]]]|[_ ->]]; [|by left|by left].
    destruct (IH (total + d)%float Hps) as [->|[Hok Hall]]; [by left|].
    right. split; [done|]. apply Forall_cons. split; [|done].
    intros t0 Ht0. by simplify_eq.
Qed.

Lemma tour_length_loop_in_range tour cities (ps : list nat) :
  forall total : float,
  Forall (index_in_range cities) tour ->
  Forall (fun p => (p < length tour)%nat) ps ->
  exists d, tour_length_loop tour cities (Z.of_nat (length tour))
              ((fun i : nat => Z.of_nat i + 0) <$> ps) total = Ok d.
Proof.
  intros total Hall. revert total.
  induction ps as [|p ps IH]; intros total Hps; [by exists total|].
  apply Forall_cons in Hps as [Hp Hps].
  assert (Hn : ((p + 1) mod length tour < length tour)%nat)
    by (apply Nat.mod_upper_bound; lia).
  destruct (lookup_lt_is_Some_2 tour p Hp) as [t Ht].
  destruct (lookup_lt_is_Some_2 tour _ Hn) as [t' Ht'].
  rewrite fmap_cons, Z.add_0_r. simpl.
  rewrite (py_getitem_lookup _ _ _ Ht). simpl.
  unfold py_mod. destruct (Z.of_nat (length tour) =? 0) eqn:E; [lia|]. simpl.
  replace ((Z.of_nat p + 1) mod Z.of_nat (length tour))
    with (Z.of_nat ((p + 1) mod length tour))
    by (rewrite Nat2Z.inj_mod; f_equal; lia).
  rewrite (py_getitem_lookup _ _ _ Ht'). simpl.
  destruct (py_getitem_in_range cities t
              (proj1 (Forall_lookup _ _) Hall _ _ Ht)) as [c ->].
  destruct (py_getitem_in_range cities t'
              (proj1 (Forall_lookup _ _) Hall _ _ Ht')) as [c' ->].
  simpl. rewrite distance_between_Ok. simpl. by apply IH.
Qed.

End TourLengthErrors.

(** X5: [evaluate_tour_length] returns a length exactly when every entry
    of the tour is an index Python accepts for the city list
    ([-len(cities) <= t < len(cities)]); as soon as one entry is not, it
    raises [IndexError], and it raises nothing else. *)
Theorem evaluate_tour_length_errors (tour : list Z) (cities : list Point) :
  (Forall (index_in_range cities) tour ->
   exists d, evaluate_tour_length tour cities = Ok d)
  /\ (~ Forall (index_in_range cities) tour ->
      evaluate_tour_length tour cities = Raise IndexError).
Proof.
  unfold evaluate_tour_length, py_range, seqZ. rewrite Nat2Z.id. split.
  - intros Hall. apply tour_length_loop_in_range; [done|].
    apply Forall_seq. lia.
  - intros Hnot.
    destruct (tour_length_loop_result tour cities (seq 0 (length tour))
                0%float) as [Herr|[_ Hall]]; [apply Forall_seq; lia|done|].
    destruct Hnot. apply Forall_lookup. intros p t Ht.
    apply (proj1 (Forall_lookup _ _) Hall p p); [|done].
    apply lookup_seq. split; [done|]. by eapply lookup_lt_Some.
Qed.

Lemma evaluate_tour_length_errors_witness :
  (exists d, evaluate_tour_length [0; -1; 2] unit_square = Ok d)
  /\ evaluate_tour_length [0; 1; 4] unit_square = Raise IndexError.
Proof.
  split.
  - apply (proj1 (evaluate_tour_length_errors [0; -1; 2] unit_square)).
    repeat constructor; unfold index_in_range; simpl; lia.
  - apply (proj2 (evaluate_tour_length_errors [0; 1; 4] unit_square)).
    intros Hall. apply Forall_cons in Hall as [_ Hall].
    apply Forall_cons in Hall as [_ Hall].
    apply Forall_cons in Hall as [H4 _].
    unfold index_in_range in H4. simpl in H4. lia.
Defined.

(** ** The distance *)

Section DistanceFacts.

Lemma SFsqrt_not_negative (v : spec_float) :
  sf_not_negative (SF64sqrt v) = true.
Proof.
  destruct v as [[]|[]| |[] m e]; simpl; try done.
  unfold SF64sqrt, SFsqrt.
  destruct (SFsqrt_core_binary _ _ _ _) as [[mz ez] lz].
  apply binary_round_aux_not_negative.
Qed.

(** A square depends on the magnitude only. *)
Lemma SFmul_self_abs (v : spec_float) :
  SF64mul v v = SF64mul (SFabs v) (SFabs v).
Proof. by destruct v as [[]|[]| |[] m e]. Qed.

Lemma binary_round_abs (s s' : bool) (m : positive) (e : Z) :
  SFabs (binary_round prec emax s m e) = SFabs (binary_round prec emax s' m e).
Proof.
  unfold binary_round. destruct (shl_align _ _ _) as [mz ez].
  unfold binary_round_aux.
  destruct (shr_fexp _ _ (Z.pos mz) ez loc_Exact) as [mrs' e'].
  destruct (shr_fexp _ _ _ e' loc_Exact) as [mrs'' e''].
  destruct (shr_m mrs''); [done| |done]. by case_match.
Qed.

Lemma binary_normalize_opp_abs (m e : Z) :
  SFabs (binary_normalize prec emax m e false)
  = SFabs (binary_normalize prec emax (- m) e false).
Proof. destruct m; simpl; [done| |]; apply binary_round_abs. Qed.

(** Swapping the operands of a subtraction changes the sign only. *)
Lemma SFsub_swap_abs (u v : spec_float) :
  SFabs (SF64sub u v) = SFabs (SF64sub v u).
Proof.
  destruct u as [[]|[]| |[] mu eu], v as [[]|[]| |[] mv ev]; simpl; try done.
  all: rewrite (Z.min_comm ev eu).
  - rewrite binary_normalize_opp_abs. do 2 f_equal. lia.
  - rewrite Pos.add_comm. apply binary_round_abs.
  - rewrite Pos.add_comm. apply binary_round_abs.
  - rewrite binary_normalize_opp_abs. do 2 f_equal. lia.
Qed.

Lemma sub_swap_square (x y : float) :
  ((x - y) * (x - y))%float = ((y - x) * (y - x))%float.
Proof.
  apply Prim2SF_inj. rewrite !mul_spec, !sub_spec.
  rewrite SFmul_self_abs,
    (SFmul_self_abs (SF64sub (Prim2SF y) (Prim2SF x))).
  by rewrite SFsub_swap_abs.
Qed.

End DistanceFacts.

(** X6: [distance_between] never raises (the argument of [math.sqrt] is a
    sum of squares, which never compares below zero), its value never
    compares below zero, and from a point with finite coordinates to itself
    it is [0.0]. *)
Theorem distance_between_not_negative (a b : Point) :
  (exists d, distance_between a b = Ok d /\ (d <? 0)%float = false)
  /\ (is_finite (px a) = true -> is_finite (py a) = true ->
      distance_between a a = Ok 0%float).
Proof.
  split; [|apply distance_between_self].
  exists (spec_distance a b). split; [apply distance_between_Ok|].
  apply sf_not_negative_ltb. unfold spec_distance.
  rewrite sqrt_spec. apply SFsqrt_not_negative.
Qed.

Lemma distance_between_not_negative_witness :
  distance_between {| px := 3; py := 4 |} {| px := 3; py := 4 |} = Ok 0%float.
Proof.
  apply (proj2 (distance_between_not_negative
                  {| px := 3; py := 4 |} {| px := 0; py := 0 |}));
    reflexivity.
Defined.

(** X7: [distance_between] is symmetric: swapping the two cities gives
    two results that are both NaN or else the same float (NaNs are not told
    apart here: their sign and payload are not modelled). *)
Theorem distance_between_symmetric (a b : Point) :
  exists d d' : float,
    distance_between a b = Ok d /\ distance_between b a = Ok d'
    /\ ((is_nan d = true /\ is_nan d' = true)
        \/ (is_nan d = false /\ d' = d)).
Proof.
  exists (spec_distance a b), (spec_distance b a).
  split; [apply distance_between_Ok|]. split; [apply distance_between_Ok|].
  assert (Hsym : spec_distance b a = spec_distance a b).
  { unfold spec_distance.
    by rewrite (sub_swap_square (px a)), (sub_swap_square (py a)). }
  rewrite Hsym. destruct (is_nan (spec_distance a b)); [by left|by right].
Qed.

(** ** The 2-opt move outside the solver's cut points *)

(** X8: with equal cut points [i = j] inside the tour the 2-opt move
    returns the tour as it is, so the pass the solver skips on
    [idx1 == idx2] would have changed nothing. *)
Theorem two_opt_equal_cut_points (tour : list Z) (i : Z) :
  0 <= i < Z.of_nat (length tour) ->
  generate_two_opt_neighbor tour i i = tour.
Proof.
  intros Hi. unfold generate_two_opt_neighbor, py_slice.
  rewrite !adjust_index_in_range by lia.
  destruct (lookup_lt_is_Some_2 tour (Z.to_nat i)) as [x Hx]; [lia|].
  assert (A : take (Z.to_nat (i - 0)) (drop (Z.to_nat 0) tour)
              = take (Z.to_nat i) tour).
  { by rewrite Z.sub_0_r. }
  assert (B : take (Z.to_nat (i + 1 - i)) (drop (Z.to_nat i) tour) = [x]).
  { rewrite (drop_S _ _ _ Hx). by replace (i + 1 - i) with 1 by lia. }
  assert (C : take (Z.to_nat (Z.of_nat (length tour) - (i + 1)))
                (drop (Z.to_nat (i + 1)) tour)
              = drop (S (Z.to_nat i)) tour).
  { replace (Z.to_nat (i + 1)) with (S (Z.to_nat i)) by lia.
    apply take_ge. rewrite length_drop. lia. }
  rewrite A, B, C, reverse_singleton, <-app_assoc.
  by apply take_drop_middle.
Qed.

Lemma two_opt_equal_cut_points_witness :
  generate_two_opt_neighbor [4; 2; 0; 3; 1] 2 2 = [4; 2; 0; 3; 1].
Proof. apply (two_opt_equal_cut_points [4; 2; 0; 3; 1] 2). simpl. lia. Defined.

(** X9: whatever the cut points, also negative, out of bounds or
    mis-ordered ones, every entry of the list the 2-opt move returns is an
    entry of the input tour. *)
Theorem two_opt_entries_from_tour (tour : list Z) (i j x : Z) :
  x ∈ generate_two_opt_neighbor tour i j -> x ∈ tour.
Proof.
  assert (Hslice : forall start stop, x ∈ py_slice tour start stop -> x ∈ tour).
  { intros start stop Hx. unfold py_slice in Hx.
    eapply elem_of_sublist; [exact Hx|].
    etrans; [apply sublist_take|apply sublist_drop]. }
  unfold generate_two_opt_neighbor.
  rewrite !elem_of_app, elem_of_reverse. intros [[Hx|Hx]|Hx]; eauto.
Qed.

Lemma two_opt_entries_from_tour_witness : 2 ∈ [0; 1; 2; 3; 4].
Proof.
  apply (two_opt_entries_from_tour [0; 1; 2; 3; 4] 3 1 2).
  vm_compute. apply list_elem_of_further, list_elem_of_further, list_elem_of_here.
Defined.

(** ** City generation *)

Section Cities.
Context {gen : RandomGen}.

(** [random.uniform(a, b)] is [a + (b - a) * random()]. *)
Definition py_uniform (a b : float) : M float := fun g =>
  let '(r, g') := random g in Ok ((a + (b - a) * r)%float, g').

(** The [for _ in range(count)] loop of [generate_cities] over the
    remaining iterations; [cities] is the list appended to. *)
Fixpoint generate_cities_loop (max_coord : float) (iterations : list Z)
    (cities : list Point) : M (list Point) :=
  match iterations with
  | [] => ret cities
  | _ :: rest =>
      bind (py_uniform 0 max_coord) (fun x =>
      bind (py_uniform 0 max_coord) (fun y =>
      generate_cities_loop max_coord rest (cities ++ [ {| px := x; py := y |} ])))
  end.

(** [generate_cities(count, max_coord)]; an int [max_coord] such as the
    default 100 enters the float arithmetic as the float of that value. *)
Definition generate_cities (count : Z) (max_coord : float) : M (list Point) :=
  generate_cities_loop max_coord (py_range count) [].

Lemma generate_cities_loop_Ok (max_coord : float) (its : list Z) :
  forall (acc : list Point) (g : rng),
  exists new g',
    generate_cities_loop max_coord its acc g = Ok (acc ++ new, g')
    /\ length new = length its.
Proof.
  induction its as [|k its IH]; intros acc g; simpl.
  - exists [], g. by rewrite app_nil_r.
  - unfold bind, py_uniform.
    destruct (random g) as [rx g1]. destruct (random g1) as [ry g2].
    destruct (IH (acc ++ [ {| px := (0 + (max_coord - 0) * rx)%float;
                              py := (0 + (max_coord - 0) * ry)%float |} ]) g2)
      as (new & g' & -> & Hlen).
    eexists (_ :: new), g'. rewrite <-app_assoc. split; [done|].
    simpl. by rewrite Hlen.
Qed.

Lemma generate_cities_loop_app (max_coord : float) (its1 its2 : list Z) :
  forall (acc : list Point) (g : rng),
  generate_cities_loop max_coord (its1 ++ its2) acc g
  = bind (generate_cities_loop max_coord its1 acc)
         (generate_cities_loop max_coord its2) g.
Proof.
  induction its1 as [|k its1 IH]; intros acc g; simpl; [done|].
  unfold bind, py_uniform in *.
  destruct (random g) as [rx g1]. destruct (random g1) as [ry g2].
  apply IH.
Qed.

End Cities.

(** *** An int [max_coord] *)

Section CitiesInt.
Context {gen : RandomGen}.

(** [random.uniform(a, b)] on two ints: in [a + (b - a) * random()] the
    difference is an int, which the multiplication converts to a float
    after the draw, and the addition then converts [a]. *)
Definition py_uniform_int (a b : Z) : M float := fun g =>
  let '(r, g') := random g in
  match float_of_int (b - a) with
  | Raise e => Raise e
  | Ok w =>
      match float_of_int a with
      | Raise e => Raise e
      | Ok fa => Ok ((fa + w * r)%float, g')
      end
  end.

Fixpoint generate_cities_int_loop (max_coord : Z) (iterations : list Z)
    (cities : list Point) : M (list Point) :=
  match iterations with
  | [] => ret cities
  | _ :: rest =>
      bind (py_uniform_int 0 max_coord) (fun x =>
      bind (py_uniform_int 0 max_coord) (fun y =>
      generate_cities_int_loop max_coord rest
        (cities ++ [ {| px := x; py := y |} ])))
  end.

(** [generate_cities(count, max_coord)] with an int [max_coord], as the
    docstring has it and as the script calls it. *)
Definition generate_cities_int (count max_coord : Z) : M (list Point) :=
  generate_cities_int_loop max_coord (py_range count) [].

(** Once the int converts, the loop is the loop over the float. *)
Lemma generate_cities_int_loop_float (max_coord : Z) (m : float)
    (its : list Z) :
  float_of_int max_coord = Ok m -> (m - 0)%float = m ->
  forall (acc : list Point) (g : rng),
  generate_cities_int_loop max_coord its acc g
  = generate_cities_loop m its acc g.
Proof.
  intros Hm Hsub. induction its as [|k its IH]; intros acc g; simpl; [done|].
  unfold bind, py_uniform_int, py_uniform.
  rewrite Z.sub_0_r, Hm, Hsub. change (float_of_int 0) with (Ok 0%float).
  destruct (random g) as [rx g1]. destruct (random g1) as [ry g2].
  apply IH.
Qed.

Lemma generate_cities_int_loop_Ok (max_coord : Z) (m : float)
    (its : list Z) :
  float_of_int max_coord = Ok m ->
  forall (acc : list Point) (g : rng),
  exists new g',
    generate_cities_int_loop max_coord its acc g = Ok (acc ++ new, g')
    /\ length new = length its.
Proof.
  intros Hm. induction its as [|k its IH]; intros acc g; simpl.
  - exists [], g. by rewrite app_nil_r.
  - unfold bind, py_uniform_int.
    rewrite Z.sub_0_r, Hm. change (float_of_int 0) with (Ok 0%float).
    destruct (random g) as [rx g1]. destruct (random g1) as [ry g2].
    destruct (IH (acc ++ [ {| px := (0 + m * rx)%float;
                              py := (0 + m * ry)%float |} ]) g2)
      as (new & g' & -> & Hlen).
    eexists (_ :: new), g'. rewrite <-app_assoc. split; [done|].
    simpl. by rewrite Hlen.
Qed.

End CitiesInt.

(** X10: [generate_cities(count, max_coord)] with an int [max_coord].  For
    [count <= 0] it returns the empty list and leaves the generator as it
    was, whatever [max_coord] is.  When [float(max_coord)] is defined it
    returns exactly [count] cities, and they are the cities computed from
    the float [m = float(max_coord)] whenever [m - 0.0] is [m].  When
    [float(max_coord)] overflows and [count >= 1], it raises that
    [OverflowError], after the first draw. *)
Theorem generate_cities_int_length {gen : RandomGen}
    (count max_coord : Z) (g : rng) :
  (count <= 0 -> generate_cities_int count max_coord g = Ok ([], g))
  /\ (forall m : float,
        float_of_int max_coord = Ok m ->
        exists cities g',
          generate_cities_int count max_coord g = Ok (cities, g')
          /\ length cities = Z.to_nat count)
  /\ (forall m : float,
        float_of_int max_coord = Ok m -> (m - 0)%float = m ->
        generate_cities_int count max_coord g = generate_cities count m g)
  /\ (forall e : exn,
        1 <= count -> float_of_int max_coord = Raise e ->
        generate_cities_int count max_coord g = Raise e).
Proof.
  split; [|split; [|split]].
  - intros Hcount. unfold generate_cities_int, py_range. by rewrite seqZ_nil.
  - intros m Hm.
    destruct (generate_cities_int_loop_Ok max_coord m (py_range count) Hm [] g)
      as (new & g' & Hrun & Hlen).
    exists new, g'. split; [done|].
    unfold py_range in Hlen. by rewrite Hlen, length_seqZ.
  - intros m Hm Hsub. by apply generate_cities_int_loop_float.
  - intros e Hcount He. unfold generate_cities_int, py_range.
    rewrite seqZ_cons by lia. simpl. unfold bind, py_uniform_int.
    rewrite Z.sub_0_r, He. by destruct (random g).
Qed.

Lemma generate_cities_int_length_witness :
  @generate_cities_int lcg (-2) 100 (Ref.lcg_seed 42)
    = Ok ([], Ref.lcg_seed 42)
  /\ (exists cities g',
        @generate_cities_int lcg 30 100 (Ref.lcg_seed 42) = Ok (cities, g')
        /\ length cities = 30%nat)
  /\ @generate_cities_int lcg 30 100 (Ref.lcg_seed 42)
     = @generate_cities lcg 30 100 (Ref.lcg_seed 42)
  /\ @generate_cities_int lcg 2 (10 ^ 400) (Ref.lcg_seed 42)
     = Raise OverflowError.
Proof.
  split; [|split; [|split]].
  - apply (proj1 (@generate_cities_int_length lcg (-2) 100 (Ref.lcg_seed 42))).
    lia.
  - apply (proj1 (proj2 (@generate_cities_int_length lcg 30 100
                           (Ref.lcg_seed 42))) 100%float).
    reflexivity.
  - apply (proj1 (proj2 (proj2 (@generate_cities_int_length lcg 30 100
                                  (Ref.lcg_seed 42)))) 100%float);
      reflexivity.
  - apply (proj2 (proj2 (proj2 (@generate_cities_int_length lcg 2 (10 ^ 400)
                                  (Ref.lcg_seed 42))))).
    + lia.
    + vm_compute. reflexivity.
Defined.

(** X11: from the same generator state, asking for more cities extends the
    list: the first [n] of the [m >= n] cities generated are the cities a
    request for [n] generates. *)
Theorem generate_cities_prefix {gen : RandomGen}
    (n m : Z) (max_coord : float) (g : rng)
    (cities_n cities_m : list Point) (gn gm : rng) :
  0 <= n <= m ->
  generate_cities n max_coord g = Ok (cities_n, gn) ->
  generate_cities m max_coord g = Ok (cities_m, gm) ->
  cities_n = take (Z.to_nat n) cities_m.
Proof.
  intros Hnm Hn Hm. unfold generate_cities, py_range in *.
  replace m with (n + (m - n)) in Hm by lia.
  rewrite seqZ_app, generate_cities_loop_app in Hm by lia.
  unfold bind in Hm. rewrite Hn in Hm.
  destruct (generate_cities_loop_Ok max_coord (seqZ 0 n) [] g)
    as (new & g' & Hn' & Hlen).
  rewrite Hn in Hn'. injection Hn' as -> <-.
  destruct (generate_cities_loop_Ok max_coord (seqZ (0 + n) (m - n)) new gn)
    as (more & g'' & Hm' & _).
  rewrite Hm in Hm'. injection Hm' as -> <-.
  rewrite take_app_length'; [done|]. by rewrite Hlen, length_seqZ.
Qed.

Lemma generate_cities_prefix_witness :
  exists cities_2 g2 cities_5 g5,
    @generate_cities lcg 2 100 (Ref.lcg_seed 42) = Ok (cities_2, g2)
    /\ @generate_cities lcg 5 100 (Ref.lcg_seed 42) = Ok (cities_5, g5)
    /\ cities_2 = take 2 cities_5.
Proof.
  eexists _, _, _, _.
  split; [vm_compute; reflexivity|]. split; [vm_compute; reflexivity|].
  eapply (@generate_cities_prefix lcg 2 5 100 (Ref.lcg_seed 42)).
  - lia.
  - vm_compute. reflexivity.
  - vm_compute. reflexivity.
Defined.

(** ** The sign of the exponent handed to [math.exp] *)

(** A value that does not compare above zero: anything but a positive
    number or positive infinity. *)
Definition sf_not_positive (v : spec_float) : bool :=
  match v with
  | S754_infinity false | S754_finite false _ _ => false
  | _ => true
  end.

(** A stand-in for [math.exp] that is defined on every argument that is
    not positive. *)
Definition exp_nonpositive (x : float) : result float :=
  match Ref.ref_exp x with
  | Ok p => Ok p
  | Raise e => if (0 <? x)%float then Raise e else Ok 0%float
  end.

Section SubtractionSign.

Lemma digits2_pos_bounds (m : positive) :
  2 ^ (Z.pos (digits2_pos m) - 1) <= Z.pos m < 2 ^ Z.pos (digits2_pos m).
Proof.
  induction m as [m IH|m IH|]; simpl digits2_pos.
  - rewrite Pos2Z.inj_succ, Pos2Z.inj_xI.
    replace (Z.succ (Z.pos (digits2_pos m)) - 1)
      with (Z.succ (Z.pos (digits2_pos m) - 1)) by lia.
    rewrite !Z.pow_succ_r by lia.
    replace (2 ^ Z.pos (digits2_pos m))
      with (2 * 2 ^ (Z.pos (digits2_pos m) - 1)) in *
      by (rewrite <-Z.pow_succ_r by lia; f_equal; lia).
    lia.
  - rewrite Pos2Z.inj_succ. change (Z.pos m~0) with (2 * Z.pos m).
    replace (Z.succ (Z.pos (digits2_pos m)) - 1)
      with (Z.succ (Z.pos (digits2_pos m) - 1)) by lia.
    rewrite !Z.pow_succ_r by lia.
    replace (2 ^ Z.pos (digits2_pos m))
      with (2 * 2 ^ (Z.pos (digits2_pos m) - 1)) in *
      by (rewrite <-Z.pow_succ_r by lia; f_equal; lia).
    lia.
  - simpl. lia.
Qed.

Lemma iter_xO_value (m d : positive) :
  Z.pos (Pos.iter xO m d) = Z.pos m * 2 ^ Z.pos d.
Proof.
  induction d as [|d IH] using Pos.peano_ind.
  - simpl. lia.
  - rewrite Pos.iter_succ.
    change (Z.pos (Pos.iter xO m d)~0) with (2 * Z.pos (Pos.iter xO m d)).
    rewrite IH, Pos2Z.inj_succ, Z.pow_succ_r; lia.
Qed.

Lemma shl_align_value (m : positive) (e e' : Z) :
  e' <= e -> Z.pos (shl_align m e e').1 = Z.pos m * 2 ^ (e - e').
Proof.
  intros He. unfold shl_align. destruct (e' - e) as [|d|d] eqn:E; simpl.
  - replace (e - e') with 0 by lia. lia.
  - lia.
  - rewrite iter_xO_value. do 2 f_equal. lia.
Qed.

Lemma bounded_digits (m : positive) (e : Z) :
  bounded prec emax m e = true ->
  -1074 <= e /\ Z.pos (digits2_pos m) <= 53
  /\ (-1074 < e -> Z.pos (digits2_pos m) = 53).
Proof.
  unfold bounded, canonical_mantissa, fexp, SpecFloat.emin, prec, emax.
  intros [Hc _]%andb_true_iff. apply Z.eqb_eq in Hc. lia.
Qed.

Lemma binary_normalize_not_negative (m e : Z) :
  0 <= m -> sf_not_negative (binary_normalize prec emax m e false) = true.
Proof.
  destruct m; intros Hm; simpl; [done| |lia].
  apply binary_round_not_negative.
Qed.

(** Aligned to the smaller exponent, the mantissa of the smaller of two
    canonical positive numbers is the smaller one. *)
Lemma aligned_mantissa_le (mu mv : positive) (eu ev : Z) :
  bounded prec emax mu eu = true -> bounded prec emax mv ev = true ->
  eu < ev \/ (eu = ev /\ (mu <= mv)%positive) ->
  Z.pos (shl_align mu eu (Z.min eu ev)).1
  <= Z.pos (shl_align mv ev (Z.min eu ev)).1.
Proof.
  intros (Hu & Hdu & _)%bounded_digits (Hv & _ & Hdv)%bounded_digits Hle.
  rewrite !shl_align_value by lia.
  destruct Hle as [Hlt|[-> Hm]].
  - rewrite Z.min_l, Z.sub_diag by lia.
    pose proof (digits2_pos_bounds mu) as [_ Hmu].
    pose proof (digits2_pos_bounds mv) as [Hmv _].
    rewrite Hdv in Hmv by lia.
    assert (2 ^ Z.pos (digits2_pos mu) <= 2 ^ 53)
      by (apply Z.pow_le_mono_r; lia).
    assert (2 ^ 1 <= 2 ^ (ev - eu)) by (apply Z.pow_le_mono_r; lia).
    change (2 ^ 53) with 9007199254740992 in *.
    change (2 ^ (53 - 1)) with 4503599627370496 in *.
    change (2 ^ 1) with 2 in *. change (2 ^ 0) with 1. nia.
  - rewrite Z.min_id, Z.sub_diag. lia.
Qed.

Lemma SFsub_not_negative (u v : spec_float) :
  valid_binary u = true -> valid_binary v = true ->
  SFltb u v = false -> sf_not_negative (SF64sub u v) = true.
Proof.
  unfold SFltb.
  destruct u as [[]|[]| |[] mu eu], v as [[]|[]| |[] mv ev];
    try (simpl; congruence).
  - (* both negative *)
    intros Hu Hv Hcmp. unfold SF64sub, SFsub, cond_Zopp.
    apply binary_normalize_not_negative.
    pose proof (aligned_mantissa_le mu mv eu ev Hu Hv) as Hle.
    simpl in Hcmp. change (PosDef.Pos.compare_cont Eq) with Pos.compare in *.
    destruct (Z.compare_spec eu ev);
      [destruct (Pos.compare_spec mu mv)|..]; simpl in Hcmp;
      try discriminate; lia.
  - intros _ _ _. unfold SF64sub, SFsub, cond_Zopp.
    apply binary_normalize_not_negative. lia.
  - intros Hu Hv Hcmp. unfold SF64sub, SFsub, cond_Zopp.
    apply binary_normalize_not_negative.
    rewrite (Z.min_comm eu ev).
    pose proof (aligned_mantissa_le mv mu ev eu Hv Hu) as Hle.
    simpl in Hcmp. change (PosDef.Pos.compare_cont Eq) with Pos.compare in *.
    destruct (Z.compare_spec eu ev);
      [destruct (Pos.compare_spec mu mv)|..]; simpl in Hcmp;
      try discriminate; lia.
Qed.

Lemma binary_round_aux_not_positive mx ex lx :
  sf_not_positive (binary_round_aux prec emax true mx ex lx) = true.
Proof.
  unfold binary_round_aux.
  destruct (shr_fexp _ _ mx ex lx) as [mrs' e'].
  destruct (shr_fexp _ _ _ e' loc_Exact) as [mrs'' e''].
  destruct (shr_m mrs''); [done| |done]. by case_match.
Qed.

Lemma SFopp_not_positive (v : spec_float) :
  sf_not_negative v = true -> sf_not_positive (SFopp v) = true.
Proof. by destruct v as [[]|[]| |[] m e]. Qed.

Lemma SFdiv_not_positive (u v : spec_float) :
  sf_not_positive u = true -> SFltb (S754_zero false) v = true ->
  sf_not_positive (SF64div u v) = true.
Proof.
  unfold SFltb.
  destruct u as [[]|[]| |[] mu eu], v as [[]|[]| |[] mv ev];
    simpl; try congruence.
  intros _ _. unfold SF64div, SFdiv.
  destruct (SFdiv_core_binary _ _ _ _ _ _) as [[mz ez] lz].
  apply binary_round_aux_not_positive.
Qed.

Lemma sf_not_positive_ltb (x : float) :
  sf_not_positive (Prim2SF x) = true -> (0 <? x)%float = false.
Proof.
  rewrite ltb_spec, Prim2SF_zero. unfold SFltb.
  destruct (Prim2SF x) as [[]|[]| |[] ? ?]; simpl; congruence.
Qed.

Lemma sub_not_negative (x y : float) :
  (x <? y)%float = false -> sf_not_negative (Prim2SF (x - y)) = true.
Proof.
  rewrite ltb_spec, sub_spec.
  apply SFsub_not_negative; apply Prim2SF_valid.
Qed.

End SubtractionSign.

(** When the candidate is not cheaper and the temperature is positive,
    [-(c' - c) / T] does not compare above zero. *)
Lemma acceptance_exponent_sign (c c' T : float) :
  (c' <? c)%float = false -> (0 <? T)%float = true ->
  (0 <? - (c' - c) / T)%float = false.
Proof.
  intros Hc HT. apply sf_not_positive_ltb.
  rewrite div_spec, opp_spec. apply SFdiv_not_positive.
  - by apply SFopp_not_positive, sub_not_negative.
  - by rewrite ltb_spec, Prim2SF_zero in HT.
Qed.

(** ** Runs that cannot fail *)

(** [math.exp] is defined on every argument that is not positive. *)
Definition exp_defined_nonpositive {libm : Libm} : Prop :=
  forall x : float, (0 <? x)%float = false -> exists p, math_exp x = Ok p.

Section Totality.
Context {libm : Libm} {gen : RandomGen}.
Implicit Types (g : rng) (s : SolverState) (cities : list Point).

Lemma metropolis_acceptance_Ok (c c' T : float) g :
  exp_defined_nonpositive ->
  exists b g', metropolis_acceptance c c' T g = Ok (b, g').
Proof.
  intros Hexp. destruct (c' <? c)%float eqn:Hc.
  - eexists _, _. by apply metropolis_improvement.
  - destruct (0 <? T)%float eqn:HT.
    + rewrite metropolis_warm by done.
      destruct (Hexp _ (acceptance_exponent_sign c c' T Hc HT))
        as [p ->].
      by eexists _, _.
    + eexists _, _. by apply metropolis_cold.
Qed.

Lemma loop_body_Ok cities schedule min_temperature s k g :
  exp_defined_nonpositive ->
  cities <> [] -> consistent cities s ->
  (exists t, temperature_at_iteration schedule k = Ok t) ->
  exists f g',
    loop_body cities (Z.of_nat (length cities)) schedule min_temperature s k g
    = Ok (f, g').
Proof.
  intros Hexp Hne (Hc & _) [t Ht]. unfold loop_body, bind, lift, ret.
  rewrite Ht. destruct (t <? min_temperature)%float; [by eexists _, _|].
  assert (Hlen : 0 <= Z.of_nat (length cities) - 1)
    by (destruct cities; [done|simpl; lia]).
  destruct (py_randint_range 0 _ g Hlen) as (a & g1 & Ha & Har).
  destruct (py_randint_range 0 _ g1 Hlen) as (b & g2 & Hb & Hbr).
  rewrite Ha, Hb.
  pose proof (cut_points_valid _ _ _ _ _ _ Ha Hb) as Hcut. revert Hcut.
  destruct (if b <? a then (b, a) else (a, b)) as [idx1 idx2]. intros Hcut.
  destruct (idx1 =? idx2) eqn:E; [by eexists _, _|].
  specialize (Hcut eq_refl).
  assert (Hn : generate_two_opt_neighbor (current_tour s) idx1 idx2
               ≡ₚ py_range (Z.of_nat (length cities))).
  { rewrite two_opt_Permutation; [done|lia|].
    rewrite (Permutation_range_length _ _ Hc). lia. }
  rewrite (evaluate_tour_length_spec _ cities
             (Permutation_range_valid_tour _ _ Hn)).
  destruct (metropolis_acceptance_Ok (current_distance s)
              (spec_tour_length
                 (Z.to_nat <$> generate_two_opt_neighbor (current_tour s)
                                 idx1 idx2) cities) t g2 Hexp)
    as (acc & g3 & ->).
  destruct acc; [|by eexists _, _].
  destruct (_ <? best_distance s)%float; by eexists _, _.
Qed.

Lemma run_loop_Ok cities schedule min_temperature its :
  forall s last g,
  exp_defined_nonpositive ->
  cities <> [] -> consistent cities s ->
  Forall (fun k => exists t, temperature_at_iteration schedule k = Ok t) its ->
  exists r,
    run_loop cities (Z.of_nat (length cities)) schedule min_temperature
      its s last g = Ok r.
Proof.
  induction its as [|k its IH]; intros s last g Hexp Hne Hs Hdef; simpl.
  - by eexists.
  - apply Forall_cons in Hdef as [Hk Hdef]. unfold bind at 1.
    destruct (loop_body_Ok cities schedule min_temperature s k g
                Hexp Hne Hs Hk) as (f & g1 & Hbody).
    rewrite Hbody. destruct f as [s1|]; [|by eexists].
    apply IH; try done. by eapply loop_body_consistent.
Qed.

End Totality.

(** X13: given at least one city, [max_iterations >= 1], a schedule whose
    temperature is defined on the iterations of the run, and a [math.exp]
    that is defined on arguments that are not positive, [solve] returns:
    no index, range, domain or division error can escape it. *)
Theorem solve_returns {libm : Libm} {gen : RandomGen}
    (cities : list Point) (schedule : CoolingSchedule) (max_iterations : Z)
    (min_temperature : float) (g : rng) :
  exp_defined_nonpositive ->
  cities <> [] -> 1 <= max_iterations ->
  (forall k, 0 <= k < max_iterations ->
     exists t, temperature_at_iteration schedule k = Ok t) ->
  exists r g', solve cities schedule max_iterations min_temperature g
               = Ok (r, g').
Proof.
  intros Hexp Hne Hmax Hdef. unfold solve, bind.
  destruct (initial_state_consistent cities g) as (s0 & g0 & -> & Hs0).
  destruct (run_loop_Ok cities schedule min_temperature
              (py_range max_iterations) s0 None g0 Hexp Hne Hs0)
    as [[[s last] g1] Hloop].
  { apply Forall_seqZ. intros k Hk. apply Hdef. lia. }
  rewrite Hloop.
  apply run_loop_last in Hloop as [[Hnil _]|(k & _ & ->)].
  - unfold py_range in Hnil. rewrite seqZ_cons in Hnil by lia. done.
  - by eexists _, _.
Qed.

Lemma exp_nonpositive_defined (x : float) :
  (0 <? x)%float = false -> exists p, exp_nonpositive x = Ok p.
Proof.
  intros Hx. unfold exp_nonpositive.
  destruct (Ref.ref_exp x); [by eexists|]. rewrite Hx. by eexists.
Qed.

Definition nonpositive_libm : Libm :=
  {| math_exp := exp_nonpositive;
     float_pow := Ref.ref_pow;
     float_pow_zero := ref_pow_zero |}.

(** X12: the exponent the acceptance rule hands to [math.exp] is never
    positive: when the candidate is not cheaper and the temperature is
    positive, [-(c' - c) / T] does not compare above zero.  Hence, with a
    [math.exp] that is defined on arguments that are not positive,
    [metropolis_acceptance] never raises. *)
Theorem metropolis_acceptance_never_raises {libm : Libm} {gen : RandomGen}
    (c c' T : float) (g : rng) :
  ((c' <? c)%float = false -> (0 <? T)%float = true ->
   (0 <? - (c' - c) / T)%float = false)
  /\ (exp_defined_nonpositive ->
      exists b g', metropolis_acceptance c c' T g = Ok (b, g')).
Proof.
  split; [apply acceptance_exponent_sign|].
  intros Hexp. by apply metropolis_acceptance_Ok.
Qed.

Lemma metropolis_acceptance_never_raises_witness :
  (0 <? - (5 - 3) / 2)%float = false
  /\ exists b g',
       @metropolis_acceptance nonpositive_libm lcg 3 5 2 (Ref.lcg_seed 1)
       = Ok (b, g').
Proof.
  split.
  - apply (proj1 (@metropolis_acceptance_never_raises nonpositive_libm lcg
                    3 5 2 (Ref.lcg_seed 1))); reflexivity.
  - apply (proj2 (@metropolis_acceptance_never_raises nonpositive_libm lcg
                    3 5 2 (Ref.lcg_seed 1))).
    exact exp_nonpositive_defined.
Defined.

Lemma solve_returns_witness :
  exists r g',
    @solve nonpositive_libm lcg five_cities (LinearSchedule 1000 0.2) 3 1e-8
      (Ref.lcg_seed 1) = Ok (r, g').
Proof.
  apply (@solve_returns nonpositive_libm lcg five_cities
           (LinearSchedule 1000 0.2) 3 1e-8 (Ref.lcg_seed 1)).
  - exact exp_nonpositive_defined.
  - discriminate.
  - lia.
  - intros k Hk. assert (k = 0 \/ k = 1 \/ k = 2) as [-> | [-> | ->]] by lia;
      eexists; reflexivity.
Defined.

(** ** The script *)

(** The label printed as better performer. *)
Inductive Performer := EXPONENTIAL | LINEAR.

Record Comparison := {
  better : Performer;
  improvement : float;
  ratio : float;
}.

(** The comparison at the end of the script; the [1] of the [else]
    branches is represented by the float [1.0]. *)
Definition compare_results (dist_exp dist_lin : float) : result Comparison :=
  let improvement := abs (dist_exp - dist_lin) in
  if (dist_exp <? dist_lin)%float then
    ratio ← (if (0 <? dist_exp)%float then float_div dist_lin dist_exp
             else Ok 1%float);
    Ok {| better := EXPONENTIAL; improvement := improvement; ratio := ratio |}
  else
    ratio ← (if (0 <? dist_lin)%float then float_div dist_exp dist_lin
             else Ok 1%float);
    Ok {| better := LINEAR; improvement := improvement; ratio := ratio |}.

(** What the script computes and prints. *)
Record Report := {
  cities_used : list Point;
  result_exp : SolveResult;
  result_lin : SolveResult;
  comparison : Comparison;
}.

Section Script.
Context {libm : Libm} {gen : RandomGen}.

(** The body of [if __name__ == "__main__"], without the printing. *)
Definition main : M Report :=
  bind (py_seed 42) (fun _ =>
  bind (generate_cities 30 100) (fun cities =>
  bind (solve cities (ExponentialSchedule 1000 0.9995) 5000 1e-8)
    (fun solver_exp =>
  bind (solve cities (LinearSchedule 1000 0.2) 5000 1e-8) (fun solver_lin =>
  bind (lift (compare_results (best_cost solver_exp) (best_cost solver_lin)))
    (fun c =>
  ret {| cities_used := cities; result_exp := solver_exp;
         result_lin := solver_lin; comparison := c |}))))).

(** The temperature of iteration [k] is defined and not below the
    minimum, as a check that can be run. *)
Definition warm_check (schedule : CoolingSchedule) (min_temperature : float)
    (k : Z) : bool :=
  match temperature_at_iteration schedule k with
  | Ok t => negb (t <? min_temperature)%float
  | Raise _ => false
  end.

Lemma warm_check_warm schedule min_temperature k :
  warm_check schedule min_temperature k = true ->
  warm schedule min_temperature k.
Proof.
  unfold warm_check, warm.
  destruct (temperature_at_iteration schedule k) as [t|]; [|done].
  intros Ht%negb_true_iff. by exists t.
Qed.

(** The linear schedule of the script stays above [1e-8] for all of the
    5000 iterations. *)
Lemma linear_schedule_warm (k : Z) :
  0 <= k < 5000 -> warm (LinearSchedule 1000 0.2) 1e-8 k.
Proof.
  intros Hk. apply warm_check_warm.
  assert (Hall : forallb (warm_check (LinearSchedule 1000 0.2) 1e-8)
                   (py_range 5000) = true) by (vm_compute; reflexivity).
  rewrite forallb_forall in Hall. apply Hall.
  apply list_elem_of_In, elem_of_seqZ. lia.
Qed.

Lemma compare_results_Ok (dist_exp dist_lin : float) :
  exists c, compare_results dist_exp dist_lin = Ok c
    /\ (better c = EXPONENTIAL <-> (dist_exp <? dist_lin)%float = true).
Proof.
  unfold compare_results, float_div.
  destruct (dist_exp <? dist_lin)%float.
  - destruct (0 <? dist_exp)%float eqn:E.
    + rewrite (ltb_zero_neq _ E). eexists. split; [done|]. by simpl.
    + eexists. split; [done|]. by simpl.
  - destruct (0 <? dist_lin)%float eqn:E.
    + rewrite (ltb_zero_neq _ E). eexists. split; [done|]. by simpl.
    + eexists. split; [done|]. by simpl.
Qed.

End Script.

(** X14: the comparison that closes the script never raises (each
    division is guarded by a positive divisor), and it names the
    exponential schedule exactly when its distance is strictly below the
    linear one's; on a tie, or when either distance is NaN, it names the
    linear schedule. *)
Theorem compare_results_total (dist_exp dist_lin : float) :
  exists c,
    compare_results dist_exp dist_lin = Ok c
    /\ (better c = EXPONENTIAL <-> (dist_exp <? dist_lin)%float = true)
    /\ (better c = LINEAR <-> (dist_exp <? dist_lin)%float = false).
Proof.
  destruct (compare_results_Ok dist_exp dist_lin) as (c & Hc & Hb).
  exists c. split; [done|]. split; [done|].
  destruct (dist_exp <? dist_lin)%float.
  - split; [|done]. intros Hl. destruct Hb as [_ Hb].
    rewrite Hb in Hl; done.
  - split; [done|]. intros _. destruct (better c); [|done].
    destruct Hb as [Hb _]. by specialize (Hb eq_refl).
Qed.

(** X15: whenever the script runs to its end, both experiments worked on
    the same 30 cities, each reported tour is a permutation of
    [0, ..., 29] whose length is the reported distance, and the linear
    experiment performed all 5000 iterations: its temperature never falls
    below [1e-8] within them. *)
Theorem main_report {libm : Libm} {gen : RandomGen}
    (g : rng) (report : Report) (g' : rng) :
  main g = Ok (report, g') ->
  length (cities_used report) = 30%nat
  /\ best_route (result_exp report) ≡ₚ seqZ 0 30
  /\ best_route (result_lin report) ≡ₚ seqZ 0 30
  /\ evaluate_tour_length (best_route (result_exp report)) (cities_used report)
     = Ok (best_cost (result_exp report))
  /\ evaluate_tour_length (best_route (result_lin report)) (cities_used report)
     = Ok (best_cost (result_lin report))
  /\ iterations_performed (result_lin report) = 5000.
Proof.
  unfold main, bind, py_seed.
  destruct (generate_cities_loop_Ok 100%float (py_range 30) [] (seed 42))
    as (cities & g1 & Hgen & Hlen).
  unfold generate_cities. rewrite Hgen. simpl app.
  change (length (py_range 30)) with 30%nat in Hlen.
  destruct (solve cities (ExponentialSchedule _ _) _ _ g1)
    as [[r_exp g2]|] eqn:Hexp; [|done].
  destruct (solve cities (LinearSchedule _ _) _ _ g2)
    as [[r_lin g3]|] eqn:Hlin; [|done].
  unfold lift. destruct (compare_results _ _) as [c|]; [|done].
  unfold ret. intros [= <- _]. simpl.
  destruct (solve_consistent _ _ _ _ _ _ _ Hexp) as [Hp1 Hd1].
  destruct (solve_consistent _ _ _ _ _ _ _ Hlin) as [Hp2 Hd2].
  unfold py_range in Hp1, Hp2. rewrite Hlen in Hp1, Hp2.
  repeat split; try done.
  destruct (solve_iteration_count _ _ _ _ _ _ _ Hlin)
    as (Hn & _ & t & Ht & [Hcold|[_ Hmax]]); [|done].
  destruct (linear_schedule_warm (iterations_performed r_lin - 1))
    as (t' & Ht' & Hwarm); [lia|].
  congruence.
Qed.

Lemma main_report_witness :
  exists report g',
    @main ref_libm lcg (Ref.lcg_seed 7) = Ok (report, g')
    /\ iterations_performed (result_lin report) = 5000.
Proof.
  eexists _, _.
  refine (let Hrun := _ in
          conj Hrun (proj2 (proj2 (proj2 (proj2 (proj2
            (@main_report ref_libm lcg (Ref.lcg_seed 7) _ _ Hrun))))))).
  vm_compute. reflexivity.
Defined.

(** ** Generated coordinates *)

Section Coordinates.
Context {gen : RandomGen}.

Lemma SFmul_not_negative (u v : spec_float) :
  sf_not_negative u = true -> sf_not_negative v = true ->
  sf_not_negative (SF64mul u v) = true.
Proof.
  destruct u as [[]|[]| |[] mu eu], v as [[]|[]| |[] mv ev];
    simpl; try done.
  intros _ _. apply binary_round_aux_not_negative.
Qed.

Lemma SFsub_zero_not_negative (u : spec_float) :
  sf_not_negative u = true ->
  sf_not_negative (SF64sub u (S754_zero false)) = true.
Proof. by destruct u as [[]|[]| |[] mu eu]. Qed.

(** What [random.uniform(0, m)] computes from a draw [r] is not below zero
    when [m] is not. *)
Lemma uniform_not_negative (m r : float) :
  (0 <=? m)%float = true -> (0 <=? r)%float = true ->
  (0 + (m - 0) * r <? 0)%float = false.
Proof.
  intros Hm Hr. apply sf_not_negative_ltb.
  rewrite add_spec, mul_spec, sub_spec, Prim2SF_zero.
  apply SFadd_not_negative; [done|].
  apply SFmul_not_negative.
  - by apply SFsub_zero_not_negative, leb_zero_not_negative.
  - by apply leb_zero_not_negative.
Qed.

(** Neither coordinate of the city compares below zero. *)
Definition in_first_quadrant (c : Point) : Prop :=
  (px c <? 0)%float = false /\ (py c <? 0)%float = false.

Lemma generate_cities_loop_quadrant (max_coord : float) (its : list Z) :
  forall (acc : list Point) (g : rng) (cities : list Point) (g' : rng),
  (0 <=? max_coord)%float = true ->
  Forall in_first_quadrant acc ->
  generate_cities_loop max_coord its acc g = Ok (cities, g') ->
  Forall in_first_quadrant cities.
Proof.
  induction its as [|k its IH]; intros acc g cities g' Hm Hacc; simpl.
  - unfold ret. by intros [= <- _].
  - unfold bind, py_uniform.
    destruct (random_range g) as [Hx _].
    destruct (random g) as [rx g1]. simpl in Hx.
    destruct (random_range g1) as [Hy _].
    destruct (random g1) as [ry g2]. simpl in Hy.
    apply IH; [done|]. apply Forall_app. split; [done|].
    apply Forall_singleton. split; simpl; by apply uniform_not_negative.
Qed.

End Coordinates.

(** X16: with a [max_coord] that is not below zero, no coordinate of a
    city that [generate_cities] returns compares below zero. *)
Theorem generate_cities_not_negative {gen : RandomGen}
    (count : Z) (max_coord : float) (g : rng)
    (cities : list Point) (g' : rng) :
  (0 <=? max_coord)%float = true ->
  generate_cities count max_coord g = Ok (cities, g') ->
  Forall in_first_quadrant cities.
Proof.
  intros Hm Hgen.
  by eapply (generate_cities_loop_quadrant max_coord _ []).
Qed.

Lemma generate_cities_not_negative_witness :
  exists cities g',
    @generate_cities lcg 30 100 (Ref.lcg_seed 42) = Ok (cities, g')
    /\ Forall in_first_quadrant cities.
Proof.
  eexists _, _.
  refine (let Hrun := _ in
          conj Hrun (@generate_cities_not_negative lcg 30 100
                       (Ref.lcg_seed 42) _ _ eq_refl Hrun)).
  vm_compute. reflexivity.
Defined.
